(** * safe-env-lite: a shallow embedding of [createEnv] and its helpers

    The development follows [src/index.ts] (compiled to [dist/index.js]):
    [normalizeDef], [coerceValue] and [createEnv], together with the parts of
    the ECMAScript run time that these three functions call
    ([String.prototype.toLowerCase], [Array.prototype.includes],
    [Array.prototype.join], [Number], [Number.isNaN], [Object.keys],
    property assignment and [Object.freeze]).

    Modelling conventions.
    - A JavaScript string is a sequence of code units.  Here a string is a
      Rocq [string], that is, a sequence of code units below 256 (the
      Latin-1 part of UTF-16).
    - A JavaScript number is an IEEE 754 binary64 value, taken from
      [SpecFloat] with [prec = 53] and [emax = 1024].
    - An object is a finite collection of own data properties keyed by
      strings, together with its extensibility.  Its [[Prototype]] slot is
      not a component of the state; the members of [Object.prototype] enter
      where the code reaches them: in a lookup of [process.env] at a name
      that is not set, and in the assignment of the name [__proto__].
    - [process.env] holds the variables that are set, a finite map from names
      to strings; a lookup yields the string of a variable that is set,
      otherwise the member of [Object.prototype] of that name when there is
      one, otherwise [undefined]. *)

From Stdlib Require Import ZArith Ascii String List Bool Lia.
From Stdlib Require Import Floats.SpecFloat.
From stdpp Require Import base option list sorting gmap strings.

Local Open Scope Z_scope.

(** ** Strings *)

Module JsString.

Definition code (c : ascii) : Z := Z.of_N (N_of_ascii c).

(** The double-quote character, used inside template literals. *)
Definition dquote : string := String (ascii_of_N 34) EmptyString.

(** Simple case mapping of one code unit below 256: [A-Z] and the Latin-1
    capitals U+00C0..U+00DE (U+00D7, the multiplication sign, excepted) move
    up by 32. *)
Definition is_upper (c : ascii) : bool :=
  let n := code c in
  ((65 <=? n) && (n <=? 90))
  || ((192 <=? n) && (n <=? 222) && negb (n =? 215)).

Definition lower_char (c : ascii) : ascii :=
  if is_upper c then ascii_of_N (N_of_ascii c + 32) else c.

(** [String.prototype.toLowerCase] *)
Fixpoint toLowerCase (s : string) : string :=
  match s with
  | EmptyString => EmptyString
  | String c r => String (lower_char c) (toLowerCase r)
  end.

(** [Array.prototype.includes] on an array of strings with a string
    argument (SameValueZero on strings is equality of code units). *)
Fixpoint includes (l : list string) (x : string) : bool :=
  match l with
  | [] => false
  | y :: r => String.eqb y x || includes r x
  end.

(** [Array.prototype.join] on an array of strings. *)
Fixpoint join (sep : string) (l : list string) : string :=
  match l with
  | [] => EmptyString
  | [x] => x
  | x :: r => x +:+ sep +:+ join sep r
  end.

(** Two code units that differ at most by case. *)
Definition same_letter (a b : ascii) : Prop :=
  a = b \/ (is_upper a = true /\ N_of_ascii b = (N_of_ascii a + 32)%N)
        \/ (is_upper b = true /\ N_of_ascii a = (N_of_ascii b + 32)%N).

(** Case-insensitive equality of strings, position by position. *)
Fixpoint eq_ignore_case (s t : string) : Prop :=
  match s, t with
  | EmptyString, EmptyString => True
  | String a s', String b t' => same_letter a b /\ eq_ignore_case s' t'
  | _, _ => False
  end.

(** A string without capitals. *)
Fixpoint is_lower (s : string) : bool :=
  match s with
  | EmptyString => true
  | String c r => negb (is_upper c) && is_lower r
  end.

End JsString.

(** ** Numbers *)

Module JsNumber.

Definition prec : Z := 53.
Definition emax : Z := 1024.

Definition number : Type := spec_float.

(** [Number.isNaN] *)
Definition isNaN (n : number) : bool :=
  match n with
  | S754_nan => true
  | _ => false
  end.

(** The number value of the mathematical value [(-1)^s * m * 10^e]:
    round to nearest, ties to even. *)
Definition of_decimal (s : bool) (m : Z) (e : Z) : number :=
  match m with
  | Zpos p =>
      match e with
      | Zneg k =>
          SFdiv prec emax (S754_finite s p 0)
                          (S754_finite false (Pos.pow 10 k) 0)
      | _ => binary_round prec emax s (p * Z.to_pos (10 ^ e))%positive 0
      end
  | _ => S754_zero s
  end.

Definition of_Z (z : Z) : number :=
  of_decimal (z <? 0) (Z.abs z) 0.

(** StrWhiteSpaceChar: WhiteSpace (TAB, VT, FF, SP, NBSP) and
    LineTerminator (LF, CR), as far as they lie below 256. *)
Definition is_StrWhiteSpaceChar (c : ascii) : bool :=
  let n := JsString.code c in
  ((9 <=? n) && (n <=? 13)) || (n =? 32) || (n =? 160).

Fixpoint trimStart (l : list ascii) : list ascii :=
  match l with
  | c :: r => if is_StrWhiteSpaceChar c then trimStart r else l
  | [] => []
  end.

Definition trim (l : list ascii) : list ascii :=
  rev (trimStart (rev (trimStart l))).

(** The value of a digit in a base up to 16. *)
Definition digit (base : Z) (c : ascii) : option Z :=
  let n := JsString.code c in
  let v :=
    if (48 <=? n) && (n <=? 57) then Some (n - 48)
    else if (97 <=? n) && (n <=? 102) then Some (n - 87)
    else if (65 <=? n) && (n <=? 70) then Some (n - 55)
    else None in
  match v with
  | Some d => if d <? base then Some d else None
  | None => None
  end.

(** The longest prefix of digits: its value on top of [acc], how many
    digits were read, and the rest. *)
Fixpoint digits (base : Z) (acc : Z) (l : list ascii) : Z * Z * list ascii :=
  match l with
  | c :: r =>
      match digit base c with
      | Some d =>
          let '(v, n, rest) := digits base (acc * base + d) r in
          (v, n + 1, rest)
      | None => (acc, 0, l)
      end
  | [] => (acc, 0, [])
  end.

(** ExponentPart, up to the end of the input; no exponent part is 0. *)
Definition exponentPart (l : list ascii) : option Z :=
  match l with
  | [] => Some 0
  | c :: r =>
      if (JsString.code c =? 101) || (JsString.code c =? 69) then
        let '(neg, ds) :=
          match r with
          | s :: r' =>
              if JsString.code s =? 45 then (true, r')
              else if JsString.code s =? 43 then (false, r')
              else (false, r)
          | [] => (false, r)
          end in
        match digits 10 0 ds with
        | (v, n, []) =>
            if 0 <? n then Some (if neg then - v else v) else None
        | _ => None
        end
      else None
  end.

(** StrUnsignedDecimalLiteral *)
Definition unsignedDecimal (s : bool) (l : list ascii) : number :=
  if String.eqb (string_of_list_ascii l) "Infinity" then S754_infinity s
  else
    let '(ip, ni, rest) := digits 10 0 l in
    let '(m, nf, rest') :=
      match rest with
      | c :: r => if JsString.code c =? 46 then digits 10 ip r
                  else (ip, 0, rest)
      | [] => (ip, 0, rest)
      end in
    if 0 <? ni + nf then
      match exponentPart rest' with
      | Some e => of_decimal s m (e - nf)
      | None => S754_nan
      end
    else S754_nan.

(** NonDecimalIntegerLiteral: the digits after [0x], [0o] or [0b]. *)
Definition nonDecimal (base : Z) (l : list ascii) : number :=
  match digits base 0 l with
  | (v, n, []) => if 0 <? n then of_Z v else S754_nan
  | _ => S754_nan
  end.

Definition radixPrefix (c : ascii) : option Z :=
  let n := JsString.code c in
  if (n =? 120) || (n =? 88) then Some 16
  else if (n =? 111) || (n =? 79) then Some 8
  else if (n =? 98) || (n =? 66) then Some 2
  else None.

(** StrNumericLiteral *)
Definition numericLiteral (l : list ascii) : number :=
  match l with
  | [] => S754_zero false
  | c :: r =>
      if JsString.code c =? 45 then unsignedDecimal true r
      else if JsString.code c =? 43 then unsignedDecimal false r
      else
        match r with
        | p :: r' =>
            match (if JsString.code c =? 48 then radixPrefix p else None) with
            | Some base => nonDecimal base r'
            | None => unsignedDecimal false l
            end
        | [] => unsignedDecimal false l
        end
  end.

(** [Number(raw)] for a string: StringToNumber.  White space is stripped
    at both ends; an empty rest is [+0]; a rest that is no
    StrNumericLiteral is [NaN]. *)
Definition Number (raw : string) : number :=
  numericLiteral (trim (list_ascii_of_string raw)).

End JsNumber.

(** ** Values *)

(** The values that a default or a resolved field can take: the primitive
    values ([string | number | boolean | null | undefined]) and, for a field
    resolved from a name that is not set, the member of [Object.prototype] of
    that name (a function; for [__proto__] the prototype object itself). *)
Inductive JsValue : Type :=
  | undefined
  | null
  | JsStr (s : string)
  | JsNum (n : JsNumber.number)
  | JsBool (b : bool)
  | JsMember (name : string).

(** What a lookup [process.env[key]] yields besides [undefined]: the string
    of a variable that is set, or a member of [Object.prototype]. *)
Inductive RawValue : Type :=
  | RawStr (s : string)
  | RawMember (name : string).

(** The names of the members of [Object.prototype]. *)
Definition prototypeNames : list string :=
  ["constructor"; "__defineGetter__"; "__defineSetter__"; "hasOwnProperty";
   "__lookupGetter__"; "__lookupSetter__"; "isPrototypeOf";
   "propertyIsEnumerable"; "toString"; "valueOf"; "__proto__";
   "toLocaleString"].

#[global] Instance spec_float_eq_dec : EqDecision spec_float.
Proof. solve_decision. Defined.

#[global] Instance JsValue_eq_dec : EqDecision JsValue.
Proof. solve_decision. Defined.

(** [v !== undefined] *)
Definition defined (v : JsValue) : bool :=
  match v with
  | undefined => false
  | _ => true
  end.

(** ToBoolean of an optional boolean flag ([flag?: boolean]). *)
Definition truthy (flag : option bool) : bool :=
  match flag with
  | Some true => true
  | _ => false
  end.

(** ** Ordinary objects with own data properties *)

Module JsObject.

Record Property : Type := {
  value : JsValue;
  writable : bool;
  enumerable : bool;
  configurable : bool
}.

Record t : Type := {
  properties : gmap string Property;
  extensible : bool
}.

(** A property descriptor for a data property; absent fields are [None]. *)
Record Descriptor : Type := {
  d_value : option JsValue;
  d_writable : option bool;
  d_enumerable : option bool;
  d_configurable : option bool
}.

(** The object literal [{}]. *)
Definition empty : t := {| properties := ∅; extensible := true |}.

(** The value of an own property; [undefined] when there is none. *)
Definition get (o : t) (k : string) : JsValue :=
  match properties o !! k with
  | Some p => value p
  | None => undefined
  end.

(** [[Set]] with the object itself as receiver.  The flag is the result of
    the internal method: on [false] the assignment [o[k] = v] throws a
    TypeError in strict code and is ignored in sloppy code. *)
Definition set (o : t) (k : string) (v : JsValue) : bool * t :=
  match properties o !! k with
  | Some p =>
      if writable p then
        (true, {| properties :=
                    <[k := {| value := v; writable := writable p;
                              enumerable := enumerable p;
                              configurable := configurable p |}]>
                      (properties o);
                  extensible := extensible o |})
      else (false, o)
  | None =>
      if extensible o then
        (true, {| properties :=
                    <[k := {| value := v; writable := true;
                              enumerable := true; configurable := true |}]>
                      (properties o);
                  extensible := extensible o |})
      else (false, o)
  end.

(** The assignment [o[k] = v] on an object that inherits from
    [Object.prototype].  For the name [__proto__], unless the object has an
    own property of that name, the assignment reaches the accessor of
    [Object.prototype]: its setter touches the [[Prototype]] slot only and
    creates no own property.  Every other name goes to [[Set]]; the members
    of [Object.prototype] other than [__proto__] are writable data
    properties, which an assignment shadows by an own property. *)
Definition assign (o : t) (k : string) (v : JsValue) : t :=
  if String.eqb k "__proto__" && bool_decide (properties o !! k = None) then o
  else snd (set o k v).

(** [[Delete]]: [delete o[k]]. *)
Definition delete (o : t) (k : string) : bool * t :=
  match properties o !! k with
  | Some p =>
      if configurable p then
        (true, {| properties := base.delete k (properties o);
                  extensible := extensible o |})
      else (false, o)
  | None => (true, o)
  end.

(** [[DefineOwnProperty]] with a data descriptor
    (ValidateAndApplyPropertyDescriptor); SameValue on the values of this
    model is equality. *)
Definition defineProperty (o : t) (k : string) (d : Descriptor) : bool * t :=
  match properties o !! k with
  | None =>
      if extensible o then
        (true, {| properties :=
                    <[k := {| value := default undefined (d_value d);
                              writable := default false (d_writable d);
                              enumerable := default false (d_enumerable d);
                              configurable := default false (d_configurable d) |}]>
                      (properties o);
                  extensible := extensible o |})
      else (false, o)
  | Some p =>
      let refused :=
        negb (configurable p)
        && (bool_decide (d_configurable d = Some true)
            || bool_decide (d_enumerable d = Some (negb (enumerable p)))
            || (negb (writable p)
                && (bool_decide (d_writable d = Some true)
                    || match d_value d with
                       | Some v => negb (bool_decide (v = value p))
                       | None => false
                       end))) in
      if refused then (false, o)
      else
        (true, {| properties :=
                    <[k := {| value := default (value p) (d_value d);
                              writable := default (writable p) (d_writable d);
                              enumerable := default (enumerable p) (d_enumerable d);
                              configurable := default (configurable p) (d_configurable d) |}]>
                      (properties o);
                  extensible := extensible o |})
  end.

(** [Object.freeze]: no longer extensible, every own property neither
    writable nor configurable. *)
Definition freeze (o : t) : t :=
  {| properties :=
       (fun p => {| value := value p; writable := false;
                    enumerable := enumerable p; configurable := false |})
         <$> properties o;
     extensible := false |}.

(** The names of the own properties, as a set. *)
Definition ownNames (o : t) : gset string := dom (properties o).

(** An attempt to change an object after its construction. *)
Inductive Mutation : Type :=
  | Assign (k : string) (v : JsValue)
  | Delete (k : string)
  | Define (k : string) (d : Descriptor).

Definition attempt (o : t) (m : Mutation) : bool * t :=
  match m with
  | Assign k v => set o k v
  | Delete k => delete o k
  | Define k d => defineProperty o k d
  end.

(** A sequence of attempts; a refused attempt (an exception the caller
    catches, or a silent refusal) leaves the rest to run. *)
Definition attempts (o : t) (ms : list Mutation) : t :=
  fold_left (fun o m => snd (attempt o m)) ms o.

End JsObject.

(** ** Schemas *)

Inductive PrimitiveType : Type :=
  | TString   (* "string" *)
  | TNumber   (* "number" *)
  | TBoolean. (* "boolean" *)

Record LongDef : Type := {
  ld_type : PrimitiveType;
  ld_required : option bool;
  ld_default : JsValue;          (* [undefined] when the field is left out *)
  ld_nullable : option bool;
  ld_description : option string
}.

(** [ShortDef | LongDef] *)
Inductive FieldDef : Type :=
  | ShortPrimitive (t : PrimitiveType)
  | ShortEnum (values : list string)
  | Long (d : LongDef).

(** [EnvDef = Record<string, ShortDef | LongDef>]: the own properties of the
    schema object in the order of their creation, which for an object literal
    is the order of declaration.  The names are pairwise distinct. *)
Definition EnvDef : Type := list (string * FieldDef).

Inductive NormalizedDef : Type :=
  | NEnum (values : list string) (required : bool)
  | NPrimitive (type : PrimitiveType) (required : bool)
               (default : JsValue) (nullable : option bool).

Record Problem : Type := {
  key : string;
  message : string;
  value : option RawValue
}.

(** The error carries its problems; its message is [buildMessage problems]. *)
Record EnvValidationError : Type := { problems : list Problem }.

(** The outcome of a call: a returned value, the thrown validation error, or
    a TypeError raised on the way. *)
Inductive Outcome (A : Type) : Type :=
  | Return (a : A)
  | Throw (e : EnvValidationError)
  | ThrowTypeError.
Arguments Return {A} a.
Arguments Throw {A} e.
Arguments ThrowTypeError {A}.

(** What [coerceValue] returns: a value, or one of the two marker objects
    [{ __badNumber: raw }] and [{ __badBoolean: raw }]. *)
Inductive Coerced : Type :=
  | Value (v : JsValue)
  | __badNumber (raw : string)
  | __badBoolean (raw : string).

(** [String(v)] on a string. *)
Definition String_ (v : string) : string := v.

Definition normalizeDef (d : FieldDef) : NormalizedDef :=
  match d with
  | ShortEnum values => NEnum (map String_ values) true
  | ShortPrimitive t => NPrimitive t true undefined None
  | Long longDef =>
      NPrimitive (ld_type longDef)
        (truthy (ld_required longDef)
         || (if negb (defined (ld_default longDef)) then false else false))
        (ld_default longDef)
        (Some (truthy (ld_nullable longDef)))
  end.

Definition coerceValue (raw : option string) (def : NormalizedDef) : Coerced :=
  match def with
  | NEnum _ _ =>
      match raw with
      | None => Value undefined
      | Some raw => Value (JsStr raw)
      end
  | NPrimitive type _ default nullable =>
      match raw with
      | None => if negb (defined default) then Value undefined else Value default
      | Some raw =>
          match type with
          | TString =>
              if truthy nullable && String.eqb raw "null" then Value null
              else Value (JsStr raw)
          | TNumber =>
              let n := JsNumber.Number raw in
              if JsNumber.isNaN n then __badNumber raw else Value (JsNum n)
          | TBoolean =>
              let lowered := JsString.toLowerCase raw in
              if JsString.includes ["1"; "true"; "yes"; "on"] lowered
              then Value (JsBool true)
              else if JsString.includes ["0"; "false"; "no"; "off"] lowered
              then Value (JsBool false)
              else __badBoolean raw
          end
      end
  end.

(** *** [Object.keys]

    The own enumerable string keys: first the keys that are array indices
    (canonical decimal numerals below 2^32 - 1) in ascending numeric order,
    then all other keys in the order of their creation. *)

Fixpoint decimalValue (acc : N) (s : string) : option N :=
  match s with
  | EmptyString => Some acc
  | String c r =>
      let n := N_of_ascii c in
      if ((48 <=? n) && (n <=? 57))%N then decimalValue (acc * 10 + (n - 48)) r
      else None
  end.

Definition arrayIndex (s : string) : option N :=
  match s with
  | EmptyString => None
  | String c r =>
      if (N_of_ascii c =? 48)%N then
        match r with EmptyString => Some 0%N | _ => None end
      else
        match decimalValue 0 s with
        | Some n => if (n <? 2 ^ 32 - 1)%N then Some n else None
        | None => None
        end
  end.

Section Entries.
Context {V : Type}.

Fixpoint insertIndexed (x : N * (string * V)) (l : list (N * (string * V)))
  : list (N * (string * V)) :=
  match l with
  | [] => [x]
  | y :: r => if (fst x <=? fst y)%N then x :: l else y :: insertIndexed x r
  end.

Definition sortIndexed (l : list (N * (string * V))) : list (N * (string * V)) :=
  foldr insertIndexed [] l.

Definition indexed (e : string * V) : option (N * (string * V)) :=
  match arrayIndex (fst e) with
  | Some i => Some (i, e)
  | None => None
  end.

Definition named (e : string * V) : bool :=
  match arrayIndex (fst e) with
  | Some _ => false
  | None => true
  end.

(** The own properties in the order in which [Object.keys] lists them. *)
Definition ownEntries (o : list (string * V)) : list (string * V) :=
  map snd (sortIndexed (omap indexed o)) ++ List.filter named o.

Definition Object_keys (o : list (string * V)) : list string :=
  map fst (ownEntries o).
End Entries.

(** *** [createEnv] *)

Definition quoted (v : string) : string :=
  JsString.dquote +:+ v +:+ JsString.dquote.

(** The two ways in which one turn of the loop ends: a problem is pushed,
    or [result[key]] is assigned. *)
Inductive FieldResult : Type :=
  | Rejected (p : Problem)
  | Resolved (v : JsValue).

(** The body of the loop for one key whose raw value is a string or
    [undefined], up to its effect on [problems] and [result]. *)
Definition resolveField (key : string) (rawDef : FieldDef)
    (rawValue : option string) : FieldResult :=
  let normalized := normalizeDef rawDef in
  match normalized with
  | NEnum values _ =>
      match rawValue with
      | None =>
          Rejected
            {| key := key;
               message := "is missing (enum: allowed "
                          +:+ JsString.join ", " (map quoted values) +:+ ")";
               value := None |}
      | Some raw =>
          if negb (JsString.includes values raw) then
            Rejected
              {| key := key;
                 message := "must be one of: " +:+ JsString.join ", " values;
                 value := Some (RawStr raw) |}
          else Resolved (JsStr raw)
      end
  | NPrimitive _ required default nullable =>
      let coerced := coerceValue rawValue normalized in
      match coerced with
      | __badNumber raw =>
          Rejected {| key := key; message := "is not a valid number";
                      value := Some (RawStr raw) |}
      | __badBoolean raw =>
          Rejected {| key := key; message := "is not a valid boolean";
                      value := Some (RawStr raw) |}
      | Value v =>
          let hasDefault := defined default in
          let provided :=
            bool_decide (rawValue <> None) || hasDefault || truthy nullable in
          if negb provided && required then
            Rejected {| key := key; message := "is required but missing";
                        value := None |}
          else Resolved v
      end
  end.

(** [process.env[key]]: the string of a variable that is set; for a name that
    is not set, the member that [process.env] inherits from
    [Object.prototype], if it has one of that name; otherwise [undefined]. *)
Definition processEnv (env : gmap string string) (key : string)
    : option RawValue :=
  match env !! key with
  | Some raw => Some (RawStr raw)
  | None =>
      if bool_decide (key ∈ prototypeNames) then Some (RawMember key)
      else None
  end.

(** How one turn of the loop ends: as a [FieldResult], or with a TypeError
    that leaves the loop and the call. *)
Inductive Turn : Type :=
  | Finished (r : FieldResult)
  | Raised.

(** The body of the loop for one key whose raw value is a member of
    [Object.prototype].  The raw value is not [undefined].  For an enum field
    [includes] does not find it, and the problem carries it.  For a string
    field [coerceValue] returns it as it is ([raw === "null"] is false); it is
    none of the two markers, the field counts as provided, and it is
    assigned.  For a number field [Number(raw)] is not-a-number, and the
    problem carries it.  For a boolean field [raw.toLowerCase] is not a
    function, and the call [raw.toLowerCase()] raises a TypeError. *)
Definition resolveMember (key : string) (rawDef : FieldDef) (member : string)
    : Turn :=
  match normalizeDef rawDef with
  | NEnum values _ =>
      Finished
        (Rejected
           {| key := key;
              message := "must be one of: " +:+ JsString.join ", " values;
              value := Some (RawMember member) |})
  | NPrimitive TString _ _ _ => Finished (Resolved (JsMember member))
  | NPrimitive TNumber _ _ _ =>
      Finished
        (Rejected {| key := key; message := "is not a valid number";
                     value := Some (RawMember member) |})
  | NPrimitive TBoolean _ _ _ => Raised
  end.

(** The body of the loop for one key. *)
Definition turn (key : string) (rawDef : FieldDef)
    (rawValue : option RawValue) : Turn :=
  match rawValue with
  | None => Finished (resolveField key rawDef None)
  | Some (RawStr raw) => Finished (resolveField key rawDef (Some raw))
  | Some (RawMember member) => resolveMember key rawDef member
  end.

(** One turn of [for (const key of Object.keys(defs))]; [rawDef] is
    [defs[key]] and [rawValue] is [process.env[key]].  The state is [None]
    once a TypeError was raised. *)
Definition step (env : gmap string string)
    (st : option (list Problem * JsObject.t)) (entry : string * FieldDef)
    : option (list Problem * JsObject.t) :=
  match st with
  | None => None
  | Some (problems, result) =>
      let '(key, rawDef) := entry in
      let rawValue := processEnv env key in
      match turn key rawDef rawValue with
      | Raised => None
      | Finished (Rejected p) => Some (problems ++ [p], result)
      | Finished (Resolved v) => Some (problems, JsObject.assign result key v)
      end
  end.

Definition createEnv (defs : EnvDef) (env : gmap string string)
    : Outcome JsObject.t :=
  match fold_left (step env) (ownEntries defs) (Some ([], JsObject.empty)) with
  | None => ThrowTypeError
  | Some (problems, result) =>
      if (0 <? Z.of_nat (length problems)) then
        Throw {| problems := problems |}
      else Return (JsObject.freeze result)
  end.

(** ** The specification's vocabulary *)

Definition truthyWords : list string := ["1"; "true"; "yes"; "on"].
Definition falsyWords : list string := ["0"; "false"; "no"; "off"].

(** A raw string matches a word of [ws] without regard to case. *)
Definition matches (ws : list string) (raw : string) : Prop :=
  exists w, w ∈ ws /\ JsString.eq_ignore_case raw w.

(** A raw string is acceptable for a primitive type: any string is a string,
    a number is a raw string whose numeric value is not not-a-number, a
    boolean is one of the eight words. *)
Definition wellTyped (t : PrimitiveType) (raw : string) : Prop :=
  match t with
  | TString => True
  | TNumber => JsNumber.isNaN (JsNumber.Number raw) = false
  | TBoolean => matches truthyWords raw \/ matches falsyWords raw
  end.

(** The external value of a field satisfies the field's constraints. *)
Definition Satisfies (d : FieldDef) (raw : option string) : Prop :=
  match d, raw with
  | ShortEnum values, Some r => r ∈ values
  | ShortEnum _, None => False
  | ShortPrimitive t, Some r => wellTyped t r
  | ShortPrimitive _, None => False
  | Long ld, Some r => wellTyped (ld_type ld) r
  | Long ld, None =>
      ~ (ld_required ld = Some true /\ ld_default ld = undefined
         /\ ld_nullable ld <> Some true)
  end.

(** A field counts as provided. *)
Definition Provided (raw : option string) (default : JsValue)
    (nullable : option bool) : Prop :=
  raw <> None \/ default <> undefined \/ nullable = Some true.

(** The turn of one schema entry. *)
Definition turnOf (env : gmap string string) (entry : string * FieldDef)
    : Turn :=
  turn (fst entry) (snd entry) (processEnv env (fst entry)).

(** The problem of one schema entry, if it has one. *)
Definition problemOf (env : gmap string string) (entry : string * FieldDef)
    : option Problem :=
  match turnOf env entry with
  | Finished (Rejected p) => Some p
  | _ => None
  end.

(** The turn of a schema entry raises a TypeError. *)
Definition raises (env : gmap string string) (entry : string * FieldDef)
    : bool :=
  match turnOf env entry with
  | Raised => true
  | Finished _ => false
  end.

(** Every lookup at a name of the schema yields the string of a variable
    that is set, or [undefined]: the names that are not set are not names of
    members of [Object.prototype]. *)
Definition OwnLookups (defs : EnvDef) (env : gmap string string) : Prop :=
  forall k, k ∈ map fst defs -> env !! k = None -> k ∉ prototypeNames.

(** The names of a list of problems follow the order of declaration. *)
Definition DeclarationOrder (defs : EnvDef) (ps : list Problem) : Prop :=
  map key ps `sublist_of` map fst defs.

(** No name of the schema is an array index. *)
Definition NoIndexName (defs : EnvDef) : Prop :=
  Forall (fun e => arrayIndex (fst e) = None) defs.

Definition Frozen (o : JsObject.t) : Prop :=
  JsObject.extensible o = false
  /\ map_Forall (fun _ p => JsObject.writable p = false
                            /\ JsObject.configurable p = false)
       (JsObject.properties o).

(** Schemas and descriptors used in the examples. *)
Definition long (t : PrimitiveType) (required : option bool)
    (default : JsValue) (nullable : option bool) : FieldDef :=
  Long {| ld_type := t; ld_required := required; ld_default := default;
          ld_nullable := nullable; ld_description := None |}.

Definition env_of (l : list (string * string)) : gmap string string :=
  list_to_map l.

(** A raw string that is empty or consists of white space only. *)
Definition AllWhiteSpace (raw : string) : Prop :=
  Forall (fun c => JsNumber.is_StrWhiteSpaceChar c = true)
         (list_ascii_of_string raw).

(** The problems of a list of entries, in the order of the list. *)
Definition problemsOf (env : gmap string string)
    (entries : list (string * FieldDef)) : list Problem :=
  omap (problemOf env) entries.

(** The nullable flag of a normalized field as the code tests it
    ([def.nullable && ...], [... || normalized.nullable]). *)
Definition isNullable (def : NormalizedDef) : bool :=
  match def with
  | NPrimitive _ _ _ nullable => truthy nullable
  | NEnum _ _ => false
  end.

Definition requiredMissing (key : string) : Problem :=
  {| key := key; message := "is required but missing"; value := None |}.

Definition badNumber (key raw : string) : Problem :=
  {| key := key; message := "is not a valid number";
     value := Some (RawStr raw) |}.

Definition badBoolean (key raw : string) : Problem :=
  {| key := key; message := "is not a valid boolean";
     value := Some (RawStr raw) |}.

(** A schema with a name that is an array index, declared last. *)
Definition indexedSchema : EnvDef :=
  [("B", long TNumber None undefined None);
   ("1", long TString (Some true) undefined None)].

Definition indexedEnv : gmap string string := env_of [("B", "x")].

(** [{PORT: {type: "number"}, DATABASE_URL: {type: "string", required: true}}]
    with PORT=notanumber and no DATABASE_URL. *)
Definition aggregationSchema : EnvDef :=
  [("PORT", long TNumber None undefined None);
   ("DATABASE_URL", long TString (Some true) undefined None)].

Definition aggregationEnv : gmap string string :=
  env_of [("PORT", "notanumber")].

(** [{PORT: {type: "number", default: 3000}}] *)
Definition portSchema : EnvDef :=
  [("PORT", long TNumber None (JsNum (JsNumber.of_Z 3000)) None)].

(** The returned object, or [{}] when the call throws. *)
Definition returned (o : Outcome JsObject.t) : JsObject.t :=
  match o with
  | Return r => r
  | _ => JsObject.empty
  end.

(** A schema whose one field has the name [__proto__], with the variable
    set. *)
Definition protoSchema : EnvDef := [("__proto__", ShortPrimitive TString)].

Definition protoEnv : gmap string string := env_of [("__proto__", "x")].

(** Schemas with a field named like a function of [Object.prototype], the
    variable not set. *)
Definition toStringSchema : EnvDef :=
  [("toString", long TNumber None undefined None)].

Definition valueOfSchema : EnvDef :=
  [("PORT", ShortPrimitive TNumber); ("valueOf", ShortPrimitive TBoolean)].

(** ** The error message *)

(** The line feed that joins the lines of the message. *)
Definition newline : string := String (ascii_of_N 10) EmptyString.

(** The header line.  Its first code unit, U+274C, lies above 255 and is
    therefore a parameter [cross] of everything that builds the message. *)
Definition header (cross : string) : string :=
  cross +:+ " Invalid environment configuration:".

(** A raw value inside a template literal: a string as it is; a member of
    [Object.prototype] as its conversion to a string, which for the functions
    is the text that the engine gives to a built-in function. *)
Definition rawText (v : RawValue) : string :=
  match v with
  | RawStr s => s
  | RawMember name =>
      if String.eqb name "__proto__" then "[object Object]"
      else "function " +:+ name +:+ "() { [native code] }"
  end.

(** The line that [buildMessage] pushes for one problem. *)
Definition problemLine (p : Problem) : string :=
  let valPart :=
    match value p with
    | Some v =>
        " (value: " +:+ JsString.dquote +:+ rawText v +:+ JsString.dquote +:+ ")"
    | None => EmptyString
    end in
  "- " +:+ key p +:+ ": " +:+ message p +:+ valPart.

Definition buildMessage (cross : string) (problems : list Problem) : string :=
  let lines :=
    fold_left (fun lines p => lines ++ [problemLine p]) problems [header cross] in
  JsString.join newline lines.

(** The message of the error that the constructor of [EnvValidationError]
    passes to [Error]. *)
Definition errorMessage (cross : string) (e : EnvValidationError) : string :=
  buildMessage cross (problems e).

(** ** The returned environment as a map *)

(** The own property that the turn of one schema entry leaves in [result]:
    the value it resolves to, unless the name is [__proto__]. *)
Definition valueOf (env : gmap string string) (entry : string * FieldDef)
    : option (string * JsValue) :=
  match turnOf env entry with
  | Finished (Resolved v) =>
      if String.eqb (fst entry) "__proto__" then None else Some (fst entry, v)
  | _ => None
  end.

(** The object after the assignments of a list of entries. *)
Definition assignAll (env : gmap string string)
    (entries : list (string * FieldDef)) (result : JsObject.t) : JsObject.t :=
  fold_left
    (fun result entry =>
       match turnOf env entry with
       | Finished (Resolved v) => JsObject.assign result (fst entry) v
       | _ => result
       end)
    entries result.

(** The property that an assignment creates, and what [Object.freeze] makes
    of it. *)
Definition plainProperty (v : JsValue) : JsObject.Property :=
  {| JsObject.value := v; JsObject.writable := true;
     JsObject.enumerable := true; JsObject.configurable := true |}.

Definition frozenProperty (v : JsValue) : JsObject.Property :=
  {| JsObject.value := v; JsObject.writable := false;
     JsObject.enumerable := true; JsObject.configurable := false |}.

(** An object all of whose properties were created by assignment. *)
Definition Fresh (o : JsObject.t) : Prop :=
  JsObject.extensible o = true
  /\ map_Forall (fun _ p => p = plainProperty (JsObject.value p))
       (JsObject.properties o)
  /\ JsObject.properties o !! "__proto__" = None.

(** Two sources agree on the names of a schema. *)
Definition AgreeOn (defs : EnvDef) (env env' : gmap string string) : Prop :=
  forall k, k ∈ map fst defs -> env !! k = env' !! k.

(** A non-empty string of decimal digits. *)
Definition decimalNumeral (raw : string) (n : N) : Prop :=
  raw <> EmptyString /\ decimalValue 0 raw = Some n.

(** The integer that a number value denotes, when it denotes one. *)
Definition integerValue (x : JsNumber.number) : option Z :=
  match x with
  | S754_zero _ => Some 0
  | S754_finite s m e =>
      let magnitude :=
        if 0 <=? e then Some (Zpos m * 2 ^ e)
        else if Zpos m mod 2 ^ (- e) =? 0 then Some (Zpos m / 2 ^ (- e))
        else None in
      (fun v => if s then - v else v) <$> magnitude
  | _ => None
  end.

(** A raw string with a white-space code unit somewhere. *)
Definition HasWhiteSpace (raw : string) : Prop :=
  Exists (fun c => JsNumber.is_StrWhiteSpaceChar c = true)
         (list_ascii_of_string raw).

(** * Properties *)

(** ** Strings *)

Lemma lower_char_id c :
  JsString.is_upper c = false -> JsString.lower_char c = c.
Proof. unfold JsString.lower_char. by intros ->. Qed.

Lemma same_letter_lower a b :
  JsString.same_letter a b ->
  JsString.lower_char a = JsString.lower_char b.
Proof.
  intros [-> | [[Ha Hb] | [Hb Ha]]]; [done | |].
  - apply (f_equal ascii_of_N) in Hb. rewrite ascii_N_embedding in Hb.
    subst b. revert Ha. by destruct a as [[] [] [] [] [] [] [] []].
  - apply (f_equal ascii_of_N) in Ha. rewrite ascii_N_embedding in Ha.
    subst a. revert Hb. by destruct b as [[] [] [] [] [] [] [] []].
Qed.

Lemma lower_char_same_letter a :
  JsString.same_letter a (JsString.lower_char a).
Proof.
  unfold JsString.same_letter, JsString.lower_char.
  destruct (JsString.is_upper a) eqn:E; [| by left].
  right; left. split; [done |].
  revert E. by destruct a as [[] [] [] [] [] [] [] []].
Qed.

Lemma toLowerCase_id w :
  JsString.is_lower w = true -> JsString.toLowerCase w = w.
Proof.
  induction w as [| c w IH]; simpl; [done |].
  intros [Hc Hw]%andb_prop. apply negb_true_iff in Hc.
  by rewrite lower_char_id, IH.
Qed.

Lemma eq_ignore_case_lower raw w :
  JsString.eq_ignore_case raw w ->
  JsString.toLowerCase raw = JsString.toLowerCase w.
Proof.
  revert w. induction raw as [| a raw IH]; intros [| b w]; simpl; try done.
  intros [Hab Hrest]. by rewrite (same_letter_lower a b Hab), (IH w Hrest).
Qed.

Lemma toLowerCase_eq_ignore_case raw :
  JsString.eq_ignore_case raw (JsString.toLowerCase raw).
Proof.
  induction raw as [| a raw IH]; simpl; [done |].
  split; [apply lower_char_same_letter | done].
Qed.

Lemma includes_spec ws x : JsString.includes ws x = true <-> x ∈ ws.
Proof.
  induction ws as [| y ws IH]; simpl.
  - split; [done | by intros ?%elem_of_nil].
  - rewrite orb_true_iff, IH, String.eqb_eq, elem_of_cons.
    split; (intros [? | ?]; [by left | by right]).
Qed.

(** [includes] on the lowered string decides the case-insensitive match
    against a list of lower-case words. *)
Lemma includes_lowered ws raw :
  Forall (fun w => JsString.is_lower w = true) ws ->
  JsString.includes ws (JsString.toLowerCase raw) = true <-> matches ws raw.
Proof.
  intros Hws. rewrite includes_spec. split.
  - intros Hin. exists (JsString.toLowerCase raw).
    split; [done | apply toLowerCase_eq_ignore_case].
  - intros (w & Hw & Hci). rewrite (eq_ignore_case_lower _ _ Hci).
    rewrite Forall_forall in Hws.
    by rewrite toLowerCase_id by (by apply Hws).
Qed.

Lemma truthyWords_lower :
  Forall (fun w => JsString.is_lower w = true) truthyWords.
Proof. repeat constructor. Qed.

Lemma falsyWords_lower :
  Forall (fun w => JsString.is_lower w = true) falsyWords.
Proof. repeat constructor. Qed.

(** No raw string matches a truthy and a falsy word at once. *)
Lemma truthy_not_falsy raw :
  matches truthyWords raw -> matches falsyWords raw -> False.
Proof.
  intros Ht Hf.
  apply (includes_lowered _ _ truthyWords_lower) in Ht.
  apply (includes_lowered _ _ falsyWords_lower) in Hf.
  apply includes_spec in Ht. unfold truthyWords in Ht.
  repeat (apply elem_of_cons in Ht as [Ht | Ht]; [by rewrite Ht in Hf |]).
  by apply elem_of_nil in Ht.
Qed.

(** ** Numbers *)

Lemma trimStart_white l :
  Forall (fun c => JsNumber.is_StrWhiteSpaceChar c = true) l ->
  JsNumber.trimStart l = [].
Proof. induction 1 as [| c l Hc _ IH]; simpl; [done | by rewrite Hc]. Qed.

Lemma Number_white raw :
  AllWhiteSpace raw -> JsNumber.Number raw = S754_zero false.
Proof.
  intros H. unfold JsNumber.Number, JsNumber.trim.
  by rewrite (trimStart_white _ H).
Qed.

(** ** The order of [Object.keys] *)

Section EntriesFacts.
Context {V : Type}.
Implicit Types (o : list (string * V)) (l : list (N * (string * V))).

Lemma insertIndexed_perm x l : insertIndexed x l ≡ₚ x :: l.
Proof.
  induction l as [| y l IH]; simpl; [done |].
  destruct (fst x <=? fst y)%N; [done |].
  rewrite IH. apply Permutation_swap.
Qed.

Lemma sortIndexed_perm l : sortIndexed l ≡ₚ l.
Proof.
  induction l as [| x l IH]; simpl; [done |].
  by rewrite insertIndexed_perm, IH.
Qed.

Lemma indexed_named_perm o :
  map snd (omap indexed o) ++ List.filter named o ≡ₚ o.
Proof.
  induction o as [| e o IH]; simpl; [done |].
  unfold indexed, named at 1. destruct (arrayIndex (fst e)); simpl.
  - by rewrite IH.
  - by rewrite <- Permutation_middle, IH.
Qed.

Lemma ownEntries_perm o : ownEntries o ≡ₚ o.
Proof.
  unfold ownEntries. rewrite sortIndexed_perm. apply indexed_named_perm.
Qed.

Lemma omap_indexed_named o :
  Forall (fun e => arrayIndex (fst e) = None) o -> omap indexed o = [].
Proof.
  induction 1 as [| e o He _ IH]; simpl; [done |].
  unfold indexed at 1. by rewrite He.
Qed.

Lemma filter_named_named o :
  Forall (fun e => arrayIndex (fst e) = None) o -> List.filter named o = o.
Proof.
  induction 1 as [| e o He _ IH]; simpl; [done |].
  unfold named at 1. by rewrite He, IH.
Qed.

Lemma ownEntries_named o :
  Forall (fun e => arrayIndex (fst e) = None) o -> ownEntries o = o.
Proof.
  intros H. unfold ownEntries.
  by rewrite (omap_indexed_named o H), (filter_named_named o H).
Qed.

Lemma insertIndexed_sorted x l :
  StronglySorted (fun a b => (fst a <= fst b)%N) l ->
  StronglySorted (fun a b => (fst a <= fst b)%N) (insertIndexed x l).
Proof.
  induction 1 as [| y l Hl IH Hy]; simpl; [repeat constructor |].
  destruct (fst x <=? fst y)%N eqn:E.
  - apply N.leb_le in E. constructor; [by constructor |].
    constructor; [done |].
    eapply Forall_impl; [exact Hy |]. simpl. intros z Hz. lia.
  - apply N.leb_gt in E. constructor; [done |].
    rewrite insertIndexed_perm. constructor; [lia | done].
Qed.

(** The array indices come out in ascending order. *)
Lemma sortIndexed_sorted l :
  StronglySorted (fun a b => (fst a <= fst b)%N) (sortIndexed l).
Proof.
  induction l as [| x l IH]; simpl; [constructor |].
  by apply insertIndexed_sorted.
Qed.

Lemma indexed_spec o x :
  x ∈ omap indexed o <-> snd x ∈ o /\ arrayIndex (fst (snd x)) = Some (fst x).
Proof.
  rewrite list_elem_of_omap. unfold indexed. split.
  - intros (e & He & Hx). destruct (arrayIndex (fst e)) eqn:E; [| done].
    by injection Hx as <-.
  - intros [He Hx]. exists (snd x). split; [done |]. rewrite Hx.
    by destruct x.
Qed.

End EntriesFacts.

(** ** Objects *)

Lemma freeze_frozen o : Frozen (JsObject.freeze o).
Proof.
  split; [done |]. unfold JsObject.freeze. simpl.
  intros k p. rewrite lookup_fmap.
  destruct (JsObject.properties o !! k); simpl; [| done].
  by intros [= <-].
Qed.

Lemma freeze_ownNames o :
  JsObject.ownNames (JsObject.freeze o) = JsObject.ownNames o.
Proof. unfold JsObject.ownNames, JsObject.freeze. simpl. apply dom_fmap_L. Qed.

Lemma freeze_get o k :
  JsObject.get (JsObject.freeze o) k = JsObject.get o k.
Proof.
  unfold JsObject.get, JsObject.freeze. simpl. rewrite lookup_fmap.
  by destruct (JsObject.properties o !! k).
Qed.

(** No attempt changes a frozen object. *)
Lemma frozen_attempt o m : Frozen o -> snd (JsObject.attempt o m) = o.
Proof.
  intros [Hext Hp]. destruct m as [k v | k | k d]; simpl.
  - unfold JsObject.set.
    destruct (JsObject.properties o !! k) as [p |] eqn:Hk.
    + by destruct (Hp k p Hk) as [-> _].
    + by rewrite Hext.
  - unfold JsObject.delete.
    destruct (JsObject.properties o !! k) as [p |] eqn:Hk; [| done].
    by destruct (Hp k p Hk) as [_ ->].
  - unfold JsObject.defineProperty.
    destruct (JsObject.properties o !! k) as [p |] eqn:Hk.
    2: { by rewrite Hext. }
    destruct (Hp k p Hk) as [Hw Hc]. rewrite Hw, Hc. simpl.
    destruct d as [dv dw de dc]. simpl.
    destruct dc as [[] |], de as [de |], dw as [[] |], dv as [dv |];
      simpl; try done;
      repeat (case_bool_decide; simpl; try done);
      destruct o as [props ext], p as [pv pw pe pc]; simpl in *; subst;
      f_equal; try (apply insert_id; rewrite Hk; f_equal; f_equal);
      try congruence; try (by destruct de, pe).
Qed.

Lemma frozen_attempts o ms : Frozen o -> JsObject.attempts o ms = o.
Proof.
  intros Hf. unfold JsObject.attempts.
  induction ms as [| m ms IH]; simpl; [done |].
  by rewrite (frozen_attempt o m Hf).
Qed.

(** ** The loop of [createEnv] *)

Lemma set_fresh o k v :
  Fresh o ->
  k <> "__proto__" ->
  Fresh (snd (JsObject.set o k v))
  /\ JsObject.properties (snd (JsObject.set o k v))
     = <[k := plainProperty v]> (JsObject.properties o).
Proof.
  intros (Hext & Hp & Hproto) Hk. unfold JsObject.set.
  destruct (JsObject.properties o !! k) as [p |] eqn:Hlook.
  - rewrite (Hp k p Hlook). simpl. split; [| done].
    split; [done |]. split; [by apply map_Forall_insert_2 |].
    simpl. by rewrite lookup_insert_ne.
  - rewrite Hext. simpl. split; [| done].
    split; [done |]. split; [by apply map_Forall_insert_2 |].
    simpl. by rewrite lookup_insert_ne.
Qed.

Lemma assign_fresh o k v :
  Fresh o ->
  Fresh (JsObject.assign o k v)
  /\ JsObject.properties (JsObject.assign o k v)
     = if String.eqb k "__proto__" then JsObject.properties o
       else <[k := plainProperty v]> (JsObject.properties o).
Proof.
  intros Hfresh. unfold JsObject.assign.
  destruct (String.eqb_spec k "__proto__") as [-> | Hne]; simpl.
  - destruct Hfresh as (Hext & Hp & Hproto).
    rewrite bool_decide_eq_true_2 by done. by repeat split.
  - by apply set_fresh.
Qed.

Lemma empty_fresh : Fresh JsObject.empty.
Proof. split; [done |]. split; [apply map_Forall_empty | done]. Qed.

Lemma loop_raised env es : fold_left (step env) es None = None.
Proof. by induction es. Qed.

(** The loop ends in a TypeError when some turn raises one; otherwise with
    the problems of all entries and the object after all assignments. *)
Lemma loop_run env es ps r :
  fold_left (step env) es (Some (ps, r))
  = if existsb (raises env) es then None
    else Some (ps ++ problemsOf env es, assignAll env es r).
Proof.
  revert ps r. induction es as [| [k d] es IH]; intros ps r.
  - simpl. by rewrite app_nil_r.
  - cbn [fold_left step existsb problemsOf omap list_omap assignAll].
    unfold raises at 1, problemOf at 1, turnOf. cbn [fst snd].
    destruct (turn k d (processEnv env k)) as [[p | v] |].
    + rewrite IH. cbn [orb]. destruct (existsb _ es); [done |].
      by rewrite <- app_assoc.
    + rewrite IH. cbn [orb]. by destruct (existsb _ es).
    + apply loop_raised.
Qed.

Lemma createEnv_unfold defs env :
  createEnv defs env =
  if existsb (raises env) (ownEntries defs) then ThrowTypeError
  else match problemsOf env (ownEntries defs) with
       | [] =>
           Return (JsObject.freeze
                     (assignAll env (ownEntries defs) JsObject.empty))
       | ps => Throw {| problems := ps |}
       end.
Proof.
  unfold createEnv. rewrite loop_run.
  destruct (existsb _ _); [done |]. simpl.
  by destruct (problemsOf env (ownEntries defs)).
Qed.

Lemma raises_perm env es es' :
  es ≡ₚ es' -> existsb (raises env) es = existsb (raises env) es'.
Proof.
  intros H. apply eq_true_iff_eq. rewrite !existsb_exists.
  split; intros (e & Hin & He); exists e; (split; [| done]).
  - by rewrite <- H.
  - by rewrite H.
Qed.

Lemma raises_app env es es' :
  existsb (raises env) (es ++ es')
  = existsb (raises env) es || existsb (raises env) es'.
Proof. apply existsb_app. Qed.

Lemma assignAll_fresh env es r : Fresh r -> Fresh (assignAll env es r).
Proof.
  revert r. induction es as [| e es IH]; intros r Hr; simpl; [done |].
  apply IH. destruct (turnOf env e) as [[p | v] |]; [done | | done].
  by apply assign_fresh.
Qed.

Lemma valueOf_fst env e kv : valueOf env e = Some kv -> fst kv = fst e.
Proof.
  unfold valueOf. destruct (turnOf env e) as [[p | v] |]; [done | | done].
  destruct (String.eqb _ _); [done |]. by intros [= <-].
Qed.

Lemma valueOf_names env es :
  map fst (omap (valueOf env) es) `sublist_of` map fst es.
Proof.
  induction es as [| e es IH]; simpl; [constructor |].
  destruct (valueOf env e) as [kv |] eqn:E; simpl.
  - rewrite (valueOf_fst env e kv E). by constructor.
  - by constructor.
Qed.

Lemma assignAll_step env e r :
  Fresh r ->
  JsObject.properties
    (match turnOf env e with
     | Finished (Resolved v) => JsObject.assign r (fst e) v
     | _ => r
     end)
  = match valueOf env e with
    | Some kv => <[fst kv := plainProperty (snd kv)]> (JsObject.properties r)
    | None => JsObject.properties r
    end.
Proof.
  intros Hr. unfold valueOf.
  destruct (turnOf env e) as [[p | v] |]; [done | | done].
  destruct (assign_fresh r (fst e) v Hr) as [_ ->].
  by destruct (String.eqb _ _).
Qed.

(** The own names after the assignments. *)
Lemma assignAll_names env es r :
  Fresh r ->
  JsObject.ownNames (assignAll env es r)
  = JsObject.ownNames r ∪ list_to_set (map fst (omap (valueOf env) es)).
Proof.
  revert r. induction es as [| e es IH]; intros r Hr; simpl.
  - by rewrite (right_id_L ∅ (∪)).
  - rewrite IH.
    2: { destruct (turnOf env e) as [[p | v] |]; [done | | done].
         by apply assign_fresh. }
    unfold JsObject.ownNames at 1. rewrite (assignAll_step env e r Hr).
    destruct (valueOf env e) as [kv |]; simpl; [| done].
    rewrite dom_insert_L. unfold JsObject.ownNames.
    by rewrite (comm_L (∪) {[fst kv]}), <- (assoc_L (∪)).
Qed.

(** The properties after the assignments: one per assigned entry, on top of
    those the object had before. *)
Lemma assignAll_lookup env es r k :
  Fresh r ->
  NoDup (map fst es) ->
  JsObject.properties (assignAll env es r) !! k
  = match (list_to_map (omap (valueOf env) es) : gmap string JsValue) !! k with
    | Some v => Some (plainProperty v)
    | None => JsObject.properties r !! k
    end.
Proof.
  revert r. induction es as [| e es IH]; intros r Hr Hnd; simpl.
  - by rewrite lookup_empty.
  - simpl in Hnd. apply NoDup_cons in Hnd as [He Hnd].
    rewrite IH; [| | done].
    2: { destruct (turnOf env e) as [[p | v] |]; [done | | done].
         by apply assign_fresh. }
    rewrite (assignAll_step env e r Hr).
    destruct (valueOf env e) as [[k' v] |] eqn:E; simpl; [| done].
    apply valueOf_fst in E. simpl in E. subst k'.
    assert ((list_to_map (omap (valueOf env) es) : gmap string JsValue)
              !! fst e = None) as Hnone.
    { apply not_elem_of_list_to_map_1. intros Hin. apply He.
      eapply elem_of_sublist; [exact Hin | apply valueOf_names]. }
    destruct (decide (k = fst e)) as [-> | Hne].
    + by rewrite Hnone, !lookup_insert_eq.
    + by rewrite !lookup_insert_ne.
Qed.

Lemma rejected_key k d raw p : resolveField k d raw = Rejected p -> key p = k.
Proof.
  unfold resolveField. destruct (normalizeDef d) as [vs rq | t rq df nl].
  - destruct raw as [raw |]; [| by intros [= <-]].
    destruct (negb _); [by intros [= <-] | done].
  - destruct (coerceValue _ _); [| by intros [= <-]..].
    destruct (_ && _); [by intros [= <-] | done].
Qed.

Lemma problemOf_key env e p : problemOf env e = Some p -> key p = fst e.
Proof.
  unfold problemOf, turnOf, turn. destruct e as [k d]. simpl.
  destruct (processEnv env k) as [[raw | m] |].
  - destruct (resolveField k d (Some raw)) eqn:E; [| done].
    intros [= <-]. by apply rejected_key in E.
  - unfold resolveMember.
    destruct (normalizeDef d) as [vs rq | [] rq df nl]; try done;
      by intros [= <-].
  - destruct (resolveField k d None) eqn:E; [| done].
    intros [= <-]. by apply rejected_key in E.
Qed.

Lemma problemsOf_nil env es :
  problemsOf env es = [] <-> Forall (fun e => problemOf env e = None) es.
Proof.
  unfold problemsOf. induction es as [| e es IH]; simpl.
  - split; [constructor | done].
  - destruct (problemOf env e) eqn:E.
    + split; [done | intros [He _]%Forall_cons; congruence].
    + rewrite IH, Forall_cons. by split; [| intros [_ ?]].
Qed.

(** A lookup at a name that is set, or that no member of
    [Object.prototype] has, is a string or [undefined]. *)
Lemma turnOf_own env k d :
  (env !! k = None -> k ∉ prototypeNames) ->
  turnOf env (k, d) = Finished (resolveField k d (env !! k)).
Proof.
  intros H. unfold turnOf, processEnv, turn. simpl.
  destruct (env !! k); [done |].
  by rewrite bool_decide_eq_false_2 by (by apply H).
Qed.

(** ** One field *)

Lemma resolveField_primitive key d raw t rq df nl :
  normalizeDef d = NPrimitive t rq df nl ->
  resolveField key d raw =
  match coerceValue raw (NPrimitive t rq df nl) with
  | __badNumber r => Rejected (badNumber key r)
  | __badBoolean r => Rejected (badBoolean key r)
  | Value v =>
      if negb (bool_decide (raw <> None) || defined df || truthy nl) && rq
      then Rejected (requiredMissing key)
      else Resolved v
  end.
Proof. unfold resolveField. by intros ->. Qed.

Lemma resolveField_present key d raw t rq df nl v :
  normalizeDef d = NPrimitive t rq df nl ->
  coerceValue (Some raw) (NPrimitive t rq df nl) = Value v ->
  resolveField key d (Some raw) = Resolved v.
Proof.
  intros Hn Hc. by rewrite (resolveField_primitive _ _ _ _ _ _ _ Hn), Hc.
Qed.

Lemma coerceValue_absent t rq df nl :
  coerceValue None (NPrimitive t rq df nl) = Value df.
Proof. simpl. by destruct df. Qed.

Lemma defined_spec v : defined v = true <-> v <> undefined.
Proof. by destruct v. Qed.

Lemma coerce_boolean rq df nl raw :
  coerceValue (Some raw) (NPrimitive TBoolean rq df nl) =
  if JsString.includes truthyWords (JsString.toLowerCase raw)
  then Value (JsBool true)
  else if JsString.includes falsyWords (JsString.toLowerCase raw)
  then Value (JsBool false)
  else __badBoolean raw.
Proof. reflexivity. Qed.

Lemma coerce_truthy rq df nl raw :
  matches truthyWords raw ->
  coerceValue (Some raw) (NPrimitive TBoolean rq df nl) = Value (JsBool true).
Proof.
  intros H%(includes_lowered _ _ truthyWords_lower).
  by rewrite coerce_boolean, H.
Qed.

Lemma coerce_falsy rq df nl raw :
  matches falsyWords raw ->
  coerceValue (Some raw) (NPrimitive TBoolean rq df nl) = Value (JsBool false).
Proof.
  intros H. rewrite coerce_boolean.
  destruct (JsString.includes truthyWords _) eqn:Et.
  - apply (includes_lowered _ _ truthyWords_lower) in Et.
    destruct (truthy_not_falsy raw Et H).
  - apply (includes_lowered _ _ falsyWords_lower) in H. by rewrite H.
Qed.

Lemma coerce_no_boolean rq df nl raw :
  ~ matches truthyWords raw -> ~ matches falsyWords raw ->
  coerceValue (Some raw) (NPrimitive TBoolean rq df nl) = __badBoolean raw.
Proof.
  intros Ht Hf. rewrite coerce_boolean.
  destruct (JsString.includes truthyWords _) eqn:Et.
  { by apply (includes_lowered _ _ truthyWords_lower) in Et. }
  destruct (JsString.includes falsyWords _) eqn:Ef; [| done].
  by apply (includes_lowered _ _ falsyWords_lower) in Ef.
Qed.

(** ** Coercion of booleans *)

(** C4: a boolean-typed primitive field with a present raw string resolves to
    [true] when the raw string matches one of 1, true, yes, on without regard
    to case, to [false] when it matches one of 0, false, no, off, and is
    otherwise rejected with the problem "is not a valid boolean" that carries
    the raw string.  The raw strings TRUE, yes, on, 1 resolve to [true]; 0,
    off, No to [false]; maybe is rejected. *)
Theorem C4_boolean_coercion key d rq df nl raw :
  normalizeDef d = NPrimitive TBoolean rq df nl ->
  (matches truthyWords raw ->
     resolveField key d (Some raw) = Resolved (JsBool true))
  /\ (matches falsyWords raw ->
        resolveField key d (Some raw) = Resolved (JsBool false))
  /\ (~ matches truthyWords raw -> ~ matches falsyWords raw ->
        coerceValue (Some raw) (normalizeDef d) = __badBoolean raw
        /\ resolveField key d (Some raw) = Rejected (badBoolean key raw))
  /\ Forall (fun r => resolveField key d (Some r) = Resolved (JsBool true))
            ["TRUE"; "yes"; "on"; "1"]
  /\ Forall (fun r => resolveField key d (Some r) = Resolved (JsBool false))
            ["0"; "off"; "No"]
  /\ resolveField key d (Some "maybe") = Rejected (badBoolean key "maybe").
Proof.
  intros Hn. repeat split.
  - intros H. apply (resolveField_present _ _ _ _ _ _ _ _ Hn).
    by apply coerce_truthy.
  - intros H. apply (resolveField_present _ _ _ _ _ _ _ _ Hn).
    by apply coerce_falsy.
  - rewrite Hn. by apply coerce_no_boolean.
  - rewrite (resolveField_primitive _ _ _ _ _ _ _ Hn).
    by rewrite coerce_no_boolean.
  - repeat constructor; by apply (resolveField_present _ _ _ _ _ _ _ _ Hn).
  - repeat constructor; by apply (resolveField_present _ _ _ _ _ _ _ _ Hn).
  - by rewrite (resolveField_primitive _ _ _ _ _ _ _ Hn).
Qed.

Lemma C4_boolean_coercion_witness :
  resolveField "DEBUG" (long TBoolean None (JsBool false) None) (Some "YES")
  = Resolved (JsBool true).
Proof.
  apply (C4_boolean_coercion "DEBUG" (long TBoolean None (JsBool false) None)
           false (JsBool false) (Some false) "YES").
  - reflexivity.
  - exists "yes". split; [by vm_compute; right; right; left|].
    vm_compute. repeat split; right; left; split; reflexivity.
Defined.

(** ** Nullable strings *)

(** C5: for a string-typed primitive field with nullable = true, the raw
    string "null" resolves to [null], every other present raw string resolves
    to itself unchanged, and an absent raw value with no default resolves to
    [undefined] without a problem. *)
Theorem C5_nullable_string key d rq df :
  normalizeDef d = NPrimitive TString rq df (Some true) ->
  resolveField key d (Some "null") = Resolved null
  /\ (forall raw, raw <> "null" ->
        resolveField key d (Some raw) = Resolved (JsStr raw))
  /\ (defined df = false -> resolveField key d None = Resolved undefined).
Proof.
  intros Hn. repeat split.
  - by apply (resolveField_present _ _ _ _ _ _ _ _ Hn).
  - intros raw Hraw. apply (resolveField_present _ _ _ _ _ _ _ _ Hn).
    simpl. by apply String.eqb_neq in Hraw as ->.
  - intros Hdf. rewrite (resolveField_primitive _ _ _ _ _ _ _ Hn).
    rewrite coerceValue_absent. simpl. rewrite orb_true_r. simpl.
    by destruct df.
Qed.

Lemma C5_nullable_string_witness :
  resolveField "API_KEY" (long TString None undefined (Some true)) None
  = Resolved undefined.
Proof.
  apply (C5_nullable_string "API_KEY"
           (long TString None undefined (Some true)) false undefined);
    reflexivity.
Defined.

(** The schema [{API_KEY: {type: "string", nullable: true}}] at the level of
    [createEnv]. *)
Example nullable_string_createEnv :
  let defs := [("API_KEY", long TString None undefined (Some true))] in
  (exists r, createEnv defs (env_of [("API_KEY", "null")]) = Return r
             /\ JsObject.get r "API_KEY" = null)
  /\ (exists r, createEnv defs (env_of []) = Return r
                /\ "API_KEY" ∈ JsObject.ownNames r
                /\ JsObject.get r "API_KEY" = undefined).
Proof.
  split; eexists; (split; [by vm_compute |]).
  - by vm_compute.
  - split; [| by vm_compute]. apply elem_of_dom. vm_compute. by eexists.
Qed.

(** ** Normalization *)

(** C6: every field declaration normalizes to exactly one canonical form: a
    sequence of strings to an enum field with those values and required =
    true; a bare primitive tag to a primitive field with required = true, no
    default and a nullable flag that reads as false; a long-form descriptor
    to a primitive field whose required flag is true exactly when its
    explicit flag is true, whatever its default. *)
Theorem C6_normalizeDef_canonical :
  forall d : FieldDef,
    (exists values, d = ShortEnum values
                    /\ normalizeDef d = NEnum values true)
    \/ (exists t, d = ShortPrimitive t
                  /\ normalizeDef d = NPrimitive t true undefined None
                  /\ isNullable (normalizeDef d) = false)
    \/ (exists ld, d = Long ld
                   /\ normalizeDef d =
                      NPrimitive (ld_type ld)
                        (bool_decide (ld_required ld = Some true))
                        (ld_default ld)
                        (Some (bool_decide (ld_nullable ld = Some true)))).
Proof.
  intros [t | values | ld].
  - right; left. by exists t.
  - left. exists values. split; [done |]. simpl. unfold String_.
    by rewrite map_id.
  - right; right. exists ld. split; [done |]. simpl.
    destruct ld as [t [[] |] df [[] |] ds]; simpl; by destruct df.
Qed.

(** ** Defaults *)

(** C7: for a primitive field whose raw value is absent, the candidate is
    the declared default when one is defined and [undefined] otherwise; the
    default is not coerced and is resolved exactly as declared.  The schema
    [{PORT: {type: "number", default: 3000}}] resolves PORT to the number
    3000 when the raw value is absent and to the number 4000 when it is
    "4000". *)
Theorem C7_default_application key d t rq df nl :
  normalizeDef d = NPrimitive t rq df nl ->
  (defined df = true ->
     coerceValue None (normalizeDef d) = Value df
     /\ resolveField key d None = Resolved df)
  /\ (defined df = false -> coerceValue None (normalizeDef d) = Value undefined)
  /\ (let defs := [("PORT", long TNumber None (JsNum (JsNumber.of_Z 3000)) None)] in
      (exists r, createEnv defs (env_of []) = Return r
                 /\ JsObject.get r "PORT" = JsNum (JsNumber.of_Z 3000))
      /\ (exists r, createEnv defs (env_of [("PORT", "4000")]) = Return r
                    /\ JsObject.get r "PORT" = JsNum (JsNumber.of_Z 4000))).
Proof.
  intros Hn. split; [| split; [| split]].
  - intros Hdf. split; [by rewrite Hn, coerceValue_absent |].
    rewrite (resolveField_primitive _ _ _ _ _ _ _ Hn), coerceValue_absent.
    simpl. by rewrite Hdf.
  - intros Hdf. rewrite Hn, coerceValue_absent. by destruct df.
  - eexists. split; by vm_compute.
  - eexists. split; by vm_compute.
Qed.

Lemma C7_default_application_witness :
  resolveField "PORT" (long TNumber None (JsStr "3000") None) None
  = Resolved (JsStr "3000").
Proof.
  apply (C7_default_application "PORT"
           (long TNumber None (JsStr "3000") None)
           TNumber false (JsStr "3000") (Some false));
    reflexivity.
Defined.

(** ** The literal "null" outside nullable strings *)

(** C9: the raw string "null" becomes [null] only for a string-typed field
    with nullable = true.  For a number-typed field, nullable or not, it is
    rejected with "is not a valid number" and the raw value; for a
    boolean-typed field with "is not a valid boolean"; for a string-typed
    field that is not nullable it resolves to the string itself. *)
Theorem C9_null_literal key d t rq df nl :
  normalizeDef d = NPrimitive t rq df nl ->
  (t = TNumber ->
     coerceValue (Some "null") (normalizeDef d) = __badNumber "null"
     /\ resolveField key d (Some "null") = Rejected (badNumber key "null"))
  /\ (t = TBoolean ->
        coerceValue (Some "null") (normalizeDef d) = __badBoolean "null"
        /\ resolveField key d (Some "null") = Rejected (badBoolean key "null"))
  /\ (t = TString ->
        resolveField key d (Some "null")
        = Resolved (if truthy nl then null else JsStr "null"))
  /\ (resolveField key d (Some "null") = Resolved null
      <-> t = TString /\ truthy nl = true).
Proof.
  intros Hn. rewrite (resolveField_primitive _ _ _ _ _ _ _ Hn), Hn.
  destruct t; simpl; destruct (truthy nl); simpl;
    (split; [| split; [| split; [| split]]]); try done;
    try (by intros [[=] _]); try (by intros [_ [=]]).
Qed.

Lemma C9_null_literal_witness :
  resolveField "PORT" (long TNumber None undefined (Some true)) (Some "null")
  = Rejected (badNumber "PORT" "null").
Proof.
  apply (C9_null_literal "PORT" (long TNumber None undefined (Some true))
           TNumber false undefined (Some true));
    reflexivity.
Defined.

(** ** Empty and blank numbers *)

(** C10: for a number-typed primitive field, a present raw value that is
    empty or consists of white space only is accepted and resolves to the
    number 0, since its numeric value is 0 and not not-a-number. *)
Theorem C10_blank_number key d rq df nl raw :
  normalizeDef d = NPrimitive TNumber rq df nl ->
  AllWhiteSpace raw ->
  JsNumber.Number raw = JsNumber.of_Z 0
  /\ coerceValue (Some raw) (normalizeDef d) = Value (JsNum (JsNumber.of_Z 0))
  /\ resolveField key d (Some raw) = Resolved (JsNum (JsNumber.of_Z 0)).
Proof.
  intros Hn Hraw.
  assert (coerceValue (Some raw) (NPrimitive TNumber rq df nl)
          = Value (JsNum (JsNumber.of_Z 0))) as Hc.
  { simpl. by rewrite (Number_white raw Hraw). }
  split; [by apply Number_white |]. split; [by rewrite Hn |].
  by apply (resolveField_present _ _ _ _ _ _ _ _ Hn).
Qed.

Lemma C10_blank_number_witness :
  resolveField "PORT" (ShortPrimitive TNumber) (Some "  ")
  = Resolved (JsNum (JsNumber.of_Z 0)).
Proof.
  apply (C10_blank_number "PORT" (ShortPrimitive TNumber)
           true undefined None "  ").
  - reflexivity.
  - repeat constructor.
Defined.

(** The empty string at the level of [createEnv]. *)
Example blank_number_createEnv :
  exists r, createEnv [("PORT", ShortPrimitive TNumber)]
                      (env_of [("PORT", EmptyString)]) = Return r
            /\ JsObject.get r "PORT" = JsNum (S754_zero false).
Proof. eexists. split; by vm_compute. Qed.

(** ** The presence check *)

Lemma provided_spec raw df nl :
  bool_decide (raw <> None) || defined df || truthy nl = true
  <-> Provided raw df nl.
Proof.
  unfold Provided.
  rewrite !orb_true_iff, bool_decide_eq_true, defined_spec.
  assert (truthy nl = true <-> nl = Some true) as ->.
  { destruct nl as [[] |]; simpl; split; congruence. }
  tauto.
Qed.

(** C3: for a primitive field the presence check comes after coercion and is
    skipped when coercion raised a problem; the field counts as provided
    exactly when the raw value is present, a default is defined or nullable
    is true; the problem "is required but missing" arises only for a field
    that is not provided and has required = true.  A field with a defined
    default therefore never yields that problem. *)
Theorem C3_presence_check key d raw t rq df nl :
  normalizeDef d = NPrimitive t rq df nl ->
  (forall r, coerceValue raw (normalizeDef d) = __badNumber r ->
             resolveField key d raw = Rejected (badNumber key r))
  /\ (forall r, coerceValue raw (normalizeDef d) = __badBoolean r ->
                resolveField key d raw = Rejected (badBoolean key r))
  /\ (forall v, coerceValue raw (normalizeDef d) = Value v ->
                (~ Provided raw df nl /\ rq = true ->
                   resolveField key d raw = Rejected (requiredMissing key))
                /\ (Provided raw df nl \/ rq = false ->
                      resolveField key d raw = Resolved v))
  /\ (forall p, resolveField key d raw = Rejected p ->
                message p = "is required but missing" ->
                ~ Provided raw df nl /\ rq = true)
  /\ (defined df = true ->
      forall p, resolveField key d raw = Rejected p ->
                message p <> "is required but missing").
Proof.
  intros Hn. rewrite (resolveField_primitive _ _ _ _ _ _ _ Hn), Hn.
  pose proof (provided_spec raw df nl) as Hp.
  assert (forall p, match coerceValue raw (NPrimitive t rq df nl) with
                    | Value v =>
                        if negb (bool_decide (raw <> None) || defined df
                                 || truthy nl) && rq
                        then Rejected (requiredMissing key) else Resolved v
                    | __badNumber r => Rejected (badNumber key r)
                    | __badBoolean r => Rejected (badBoolean key r)
                    end = Rejected p ->
                    message p = "is required but missing" ->
                    ~ Provided raw df nl /\ rq = true) as Honly.
  { intros p. destruct (coerceValue _ _) as [v | r | r];
      [| by intros [= <-] | by intros [= <-]].
    destruct (negb _ && rq) eqn:E; [| done]. intros _ _.
    apply andb_true_iff in E as [E ->]. apply negb_true_iff in E.
    split; [| done]. intros Hprov%Hp. congruence. }
  split; [by intros r -> |]. split; [by intros r -> |].
  split; [| split; [done |]].
  - intros v ->. split.
    + intros [Hnp ->].
      assert (bool_decide (raw <> None) || defined df || truthy nl = false)
        as ->; [| done].
      apply not_true_is_false. by intros ?%Hp.
    + intros [Hprov%Hp | ->]; [by rewrite Hprov | by rewrite andb_false_r].
  - intros Hdf p Hrej Hmsg. destruct (Honly p Hrej Hmsg) as [Hnp _].
    apply Hnp. right; left. by apply defined_spec.
Qed.

Lemma C3_presence_check_witness :
  resolveField "PORT"
    (long TNumber (Some true) (JsNum (JsNumber.of_Z 3000)) None) None
  = Resolved (JsNum (JsNumber.of_Z 3000)).
Proof.
  apply (C3_presence_check "PORT"
           (long TNumber (Some true) (JsNum (JsNumber.of_Z 3000)) None)
           None TNumber true (JsNum (JsNumber.of_Z 3000)) (Some false)
           ltac:(reflexivity)).
  - reflexivity.
  - left. right. left. discriminate.
Defined.

(** ** Fields that satisfy their constraints *)

Lemma present_iff_wellTyped key d t rq df nl r :
  normalizeDef d = NPrimitive t rq df nl ->
  (exists v, resolveField key d (Some r) = Resolved v) <-> wellTyped t r.
Proof.
  intros Hn. rewrite (resolveField_primitive _ _ _ _ _ _ _ Hn).
  destruct t.
  - simpl. split; [done | intros _]. destruct (_ && _); by eexists.
  - simpl. destruct (JsNumber.isNaN _); simpl.
    + split; [by intros [v [=]] | done].
    + split; [done | by eexists].
  - rewrite coerce_boolean. unfold wellTyped.
    rewrite <- (includes_lowered truthyWords r truthyWords_lower).
    rewrite <- (includes_lowered falsyWords r falsyWords_lower).
    destruct (JsString.includes truthyWords _),
             (JsString.includes falsyWords _).
    + split; [by left | by eexists].
    + split; [by left | by eexists].
    + split; [by right | by eexists].
    + split; [by intros [v [=]] | by intros [[=] | [=]]].
Qed.

Lemma resolved_iff_satisfies key d raw :
  (exists v, resolveField key d raw = Resolved v) <-> Satisfies d raw.
Proof.
  destruct d as [t | values | ld], raw as [r |]; simpl.
  - by apply (present_iff_wellTyped key (ShortPrimitive t) t true undefined None).
  - split; [by intros [v [=]] | done].
  - unfold resolveField. simpl. unfold String_. rewrite map_id.
    destruct (JsString.includes values r) eqn:E; simpl.
    + apply includes_spec in E. split; [done | by eexists].
    + split; [by intros [v [=]] |]. intros Hin%includes_spec. congruence.
  - split; [by intros [v [=]] | done].
  - by eapply (present_iff_wellTyped key (Long ld)).
  - erewrite resolveField_primitive by reflexivity.
    rewrite coerceValue_absent.
    destruct ld as [t [[] |] df [[] |] ds]; simpl; destruct df; simpl;
      (split; [intros [v Hv]; try done; intros (? & ? & ?); congruence
              | intros Hs; try (by eexists); destruct Hs; by repeat split]).
Qed.

Lemma problemOf_own env k d :
  (env !! k = None -> k ∉ prototypeNames) ->
  problemOf env (k, d)
  = match resolveField k d (env !! k) with
    | Rejected p => Some p
    | Resolved _ => None
    end
  /\ raises env (k, d) = false.
Proof.
  intros H. unfold problemOf, raises. by rewrite (turnOf_own env k d H).
Qed.

Lemma problemOf_None_iff env k d :
  (env !! k = None -> k ∉ prototypeNames) ->
  problemOf env (k, d) = None <-> Satisfies d (env !! k).
Proof.
  intros H. destruct (problemOf_own env k d H) as [-> _].
  rewrite <- (resolved_iff_satisfies k).
  destruct (resolveField k d (env !! k)) as [p | v].
  - split; [done | by intros [v [=]]].
  - split; [by eexists | done].
Qed.

Lemma valueOf_own env k d v :
  (env !! k = None -> k ∉ prototypeNames) ->
  k <> "__proto__" ->
  resolveField k d (env !! k) = Resolved v ->
  valueOf env (k, d) = Some (k, v).
Proof.
  intros H Hk Hv. unfold valueOf. rewrite (turnOf_own env k d H), Hv. simpl.
  by apply String.eqb_neq in Hk as ->.
Qed.

Lemma problemsOf_elem env es p :
  p ∈ problemsOf env es <-> exists e, e ∈ es /\ problemOf env e = Some p.
Proof. unfold problemsOf. apply list_elem_of_omap. Qed.

(** The names of the problems of a list of entries, in order, form a
    subsequence of the names of the entries. *)
Lemma problemsOf_sublist env es :
  map key (problemsOf env es) `sublist_of` map fst es.
Proof.
  unfold problemsOf. induction es as [| e es IH]; simpl; [constructor |].
  destruct (problemOf env e) as [p |] eqn:E; simpl.
  - rewrite (problemOf_key env e p E). by constructor.
  - by constructor.
Qed.

Lemma own_no_raise defs env :
  OwnLookups defs env -> existsb (raises env) (ownEntries defs) = false.
Proof.
  intros Hown. apply not_true_is_false. intros H.
  apply existsb_exists in H as ([k d] & Hin & He).
  apply list_elem_of_In in Hin. rewrite ownEntries_perm in Hin.
  destruct (problemOf_own env k d) as [_ Hr]; [| congruence].
  apply Hown, list_elem_of_fmap. by exists (k, d).
Qed.

Lemma names_own defs env :
  Forall (fun e => fst e ∉ prototypeNames) defs -> OwnLookups defs env.
Proof.
  intros H k ([k' d] & -> & Hin)%list_elem_of_fmap _.
  rewrite Forall_forall in H. by apply (H (k', d)).
Qed.

(** ** The returned environment *)

Lemma satisfied_no_problems defs env :
  OwnLookups defs env ->
  (forall k d, (k, d) ∈ defs -> Satisfies d (env !! k)) ->
  problemsOf env (ownEntries defs) = [].
Proof.
  intros Hown H. apply problemsOf_nil. rewrite ownEntries_perm.
  apply Forall_forall. intros [k d] Hin. apply problemOf_None_iff.
  - apply Hown, list_elem_of_fmap. by exists (k, d).
  - by apply H.
Qed.

Lemma satisfied_names defs env :
  OwnLookups defs env ->
  "__proto__" ∉ map fst defs ->
  (forall k d, (k, d) ∈ defs -> Satisfies d (env !! k)) ->
  map fst (omap (valueOf env) defs) = map fst defs.
Proof.
  induction defs as [| [k d] defs IH]; intros Hown Hproto Hsat; [done |].
  simpl in *. apply not_elem_of_cons in Hproto as [Hk Hproto].
  destruct (proj2 (resolved_iff_satisfies k d (env !! k))) as [v Hv].
  { apply Hsat. left. }
  rewrite (valueOf_own env k d v); [| | done | done].
  2: { apply Hown. left. }
  simpl. f_equal. apply IH; [| done |].
  - intros k' Hk'. apply Hown. by right.
  - intros k' d' Hin. apply Hsat. by right.
Qed.

(** X13: for every schema whose field names do not include [__proto__], and
    every external source in which every variable that is not set has a name
    that no member of [Object.prototype] has: when every declared field
    satisfies its constraints, [createEnv] returns, and the own property
    names of the returned environment are exactly the declared field names; a
    field that is absent and has no default is present with the value
    [undefined]. *)
Theorem valid_sources_resolve defs env :
  OwnLookups defs env ->
  "__proto__" ∉ map fst defs ->
  (forall k d, (k, d) ∈ defs -> Satisfies d (env !! k)) ->
  exists r,
    createEnv defs env = Return r
    /\ JsObject.ownNames r = list_to_set (map fst defs)
    /\ (forall k, is_Some (JsObject.properties r !! k) <-> k ∈ map fst defs)
    /\ (NoDup (map fst defs) ->
        forall k d v, (k, d) ∈ defs ->
                      resolveField k d (env !! k) = Resolved v ->
                      JsObject.get r k = v)
    /\ (NoDup (map fst defs) ->
        forall k ld, (k, Long ld) ∈ defs -> env !! k = None ->
                     ld_default ld = undefined ->
                     k ∈ JsObject.ownNames r /\ JsObject.get r k = undefined).
Proof.
  intros Hown Hproto Hsat.
  set (r := assignAll env (ownEntries defs) JsObject.empty).
  exists (JsObject.freeze r). rewrite createEnv_unfold.
  rewrite (own_no_raise defs env Hown).
  rewrite (satisfied_no_problems defs env Hown Hsat).
  assert (OwnLookups (ownEntries defs) env) as Hown'.
  { intros k Hk. apply Hown. by rewrite <- (ownEntries_perm defs). }
  assert ("__proto__" ∉ map fst (ownEntries defs)) as Hproto'.
  { by rewrite ownEntries_perm. }
  assert (forall k d, (k, d) ∈ ownEntries defs -> Satisfies d (env !! k))
    as Hsat'.
  { intros k d Hin. apply Hsat. by rewrite <- (ownEntries_perm defs). }
  assert (JsObject.ownNames (JsObject.freeze r) = list_to_set (map fst defs))
    as Hnames.
  { rewrite freeze_ownNames. unfold r.
    rewrite (assignAll_names env _ _ empty_fresh).
    rewrite (satisfied_names _ env Hown' Hproto' Hsat').
    unfold JsObject.ownNames, JsObject.empty. simpl.
    rewrite dom_empty_L, (left_id_L ∅ (∪)).
    apply list_to_set_perm_L. by rewrite ownEntries_perm. }
  assert (NoDup (map fst defs) ->
          forall k d v, (k, d) ∈ defs ->
                        resolveField k d (env !! k) = Resolved v ->
                        JsObject.get (JsObject.freeze r) k = v) as Hget.
  { intros Hnd k d v Hin Hv. rewrite freeze_get.
    unfold JsObject.get, r.
    rewrite (assignAll_lookup env _ _ k empty_fresh)
      by (by rewrite ownEntries_perm).
    erewrite elem_of_list_to_map_1; [done | |].
    - eapply sublist_NoDup; [| apply valueOf_names].
      by rewrite ownEntries_perm.
    - apply list_elem_of_omap. exists (k, d).
      split; [by rewrite ownEntries_perm |].
      apply valueOf_own; [| | done].
      + apply Hown, list_elem_of_fmap. by exists (k, d).
      + intros ->. apply Hproto, list_elem_of_fmap. by exists ("__proto__", d). }
  split; [done |]. split; [done |]. split; [| split; [done |]].
  - intros k. rewrite <- (elem_of_list_to_set (C := gset string)), <- Hnames.
    symmetry. apply elem_of_dom.
  - intros Hnd k ld Hin Hraw Hdf. split.
    + rewrite Hnames. apply elem_of_list_to_set, list_elem_of_fmap.
      by exists (k, Long ld).
    + apply (Hget Hnd k (Long ld)); [done |].
      destruct (proj2 (resolved_iff_satisfies k (Long ld) (env !! k))
                  (Hsat _ _ Hin)) as [v Hv].
      rewrite Hv. f_equal. revert Hv. rewrite Hraw.
      erewrite resolveField_primitive by reflexivity.
      rewrite coerceValue_absent, Hdf.
      by destruct (_ && _); intros [= <-].
Qed.

Lemma valid_sources_resolve_witness :
  exists r,
    createEnv portSchema (env_of [("PORT", "4000")]) = Return r
    /\ JsObject.ownNames r = list_to_set (map fst portSchema).
Proof.
  destruct (valid_sources_resolve portSchema (env_of [("PORT", "4000")]))
    as (r & Hr & Hnames & _).
  - apply names_own. apply (bool_decide_unpack _). vm_compute. exact I.
  - apply (bool_decide_unpack _). vm_compute. exact I.
  - intros k d [[= -> ->] | []%elem_of_nil]%elem_of_cons. reflexivity.
  - by exists r.
Defined.

(** C1: every declared field satisfies its constraints, and still the
    returned environment does not have exactly the declared names, or the
    call does not return.  With a string field named [__proto__] whose
    variable is set, the returned environment has no own property at all;
    with an optional number field named [toString] whose variable is not
    set, the call throws a validation error. *)
Theorem C1_prototype_names :
  (Forall (fun e => Satisfies (snd e) (protoEnv !! fst e)) protoSchema
   /\ exists r, createEnv protoSchema protoEnv = Return r
                /\ JsObject.ownNames r = ∅
                /\ JsObject.ownNames r <> list_to_set (map fst protoSchema))
  /\ (Forall (fun e => Satisfies (snd e) (env_of [] !! fst e)) toStringSchema
      /\ createEnv toStringSchema (env_of [])
         = Throw {| problems :=
                      [{| key := "toString";
                          message := "is not a valid number";
                          value := Some (RawMember "toString") |}] |}).
Proof.
  split; split.
  - repeat constructor.
  - exists (returned (createEnv protoSchema protoEnv)).
    split; [by vm_compute |].
    assert (JsObject.ownNames (returned (createEnv protoSchema protoEnv)) = ∅)
      as Hempty by (by vm_compute).
    split; [done |]. rewrite Hempty. intros H.
    assert ("__proto__" ∈ (∅ : gset string)) as Hin.
    { rewrite H. apply elem_of_list_to_set. simpl. left. }
    by apply not_elem_of_empty in Hin.
  - constructor; [| constructor]. vm_compute. by intros ([=] & _).
  - by vm_compute.
Qed.

(** ** Aggregation of problems *)

Lemma createEnv_throw defs env e :
  createEnv defs env = Throw e ->
  problems e = problemsOf env (ownEntries defs) /\ problems e <> [].
Proof.
  rewrite createEnv_unfold. destruct (existsb _ _); [done |].
  destruct (problemsOf env (ownEntries defs)) as [| p ps]; [done |].
  by intros [= <-].
Qed.

Lemma createEnv_throw_iff defs env :
  OwnLookups defs env ->
  (exists e, createEnv defs env = Throw e)
  <-> exists k d, (k, d) ∈ defs /\ ~ Satisfies d (env !! k).
Proof.
  intros Hown. rewrite createEnv_unfold, (own_no_raise defs env Hown).
  assert (forall k d, (k, d) ∈ defs ->
            problemOf env (k, d) = None <-> Satisfies d (env !! k)) as Hiff.
  { intros k d Hin. apply problemOf_None_iff, Hown, list_elem_of_fmap.
    by exists (k, d). }
  split.
  - intros [e He].
    destruct (problemsOf env (ownEntries defs)) as [| p ps] eqn:E; [done |].
    assert (p ∈ problemsOf env (ownEntries defs)) as Hp.
    { rewrite E. by left. }
    apply problemsOf_elem in Hp as ([k d] & Hin & Hp).
    rewrite ownEntries_perm in Hin. exists k, d. split; [done |].
    rewrite <- (Hiff k d Hin). congruence.
  - intros (k & d & Hin & Hns).
    destruct (problemsOf env (ownEntries defs)) as [| p ps] eqn:E;
      [| by eexists].
    exfalso. apply Hns, (Hiff k d Hin).
    apply problemsOf_nil in E. rewrite ownEntries_perm in E.
    rewrite Forall_forall in E. by apply (E (k, d)).
Qed.

(** C2 (amended): for every schema and every external source in which every
    variable that is not set has a name that no member of [Object.prototype]
    has, [createEnv] looks at every declared field and ends with at most one
    error, which is a validation error.  It throws exactly when some field
    fails, and the one error then carries one problem per failing field, in
    the order in which [Object.keys] lists the fields of the schema: names
    that are array indices first, in ascending numeric order, then all other
    names in the order of declaration.  For a schema without array-index
    names this is the order of declaration.  The schema with a malformed
    number and a missing required string gives one error with exactly two
    problems in the order of declaration. *)
Theorem C2_aggregated_problems defs env :
  OwnLookups defs env ->
  createEnv defs env <> ThrowTypeError
  /\ ((exists e, createEnv defs env = Throw e)
      <-> exists k d, (k, d) ∈ defs /\ ~ Satisfies d (env !! k))
  /\ (forall e, createEnv defs env = Throw e ->
        problems e = problemsOf env (ownEntries defs)
        /\ problems e <> []
        /\ map key (problems e) `sublist_of` Object_keys defs
        /\ (forall k d, (k, d) ∈ defs ->
              ~ Satisfies d (env !! k) ->
              exists p, p ∈ problems e /\ key p = k)
        /\ (forall p, p ∈ problems e ->
              exists d, (key p, d) ∈ defs /\ ~ Satisfies d (env !! key p))
        /\ (NoDup (map fst defs) -> NoDup (map key (problems e)))
        /\ (NoIndexName defs ->
              problems e = problemsOf env defs
              /\ DeclarationOrder defs (problems e)))
  /\ (exists idx,
        ownEntries defs = map snd idx ++ List.filter named defs
        /\ idx ≡ₚ omap indexed defs
        /\ StronglySorted (fun a b => (fst a <= fst b)%N) idx)
  /\ createEnv aggregationSchema aggregationEnv
     = Throw {| problems := [badNumber "PORT" "notanumber";
                             requiredMissing "DATABASE_URL"] |}.
Proof.
  intros Hown.
  assert (forall k d, (k, d) ∈ defs ->
            problemOf env (k, d) = None <-> Satisfies d (env !! k)) as Hiff.
  { intros k d Hin. apply problemOf_None_iff, Hown, list_elem_of_fmap.
    by exists (k, d). }
  split.
  { rewrite createEnv_unfold, (own_no_raise defs env Hown).
    by destruct (problemsOf env (ownEntries defs)). }
  split; [by apply createEnv_throw_iff |]. split; [| split; [| by vm_compute]].
  2: { exists (sortIndexed (omap indexed defs)).
       split; [done |].
       split; [apply sortIndexed_perm | apply sortIndexed_sorted]. }
  intros e [He Hne]%createEnv_throw.
  split; [done |]. split; [done |]. rewrite He.
  split; [apply problemsOf_sublist |].
  split; [| split; [| split]].
  - intros k d Hin Hns.
    destruct (problemOf env (k, d)) as [p |] eqn:E.
    + exists p. split; [| by apply (problemOf_key env (k, d))].
      apply problemsOf_elem. exists (k, d). by rewrite ownEntries_perm.
    + by apply (Hiff k d Hin) in E.
  - intros p ([k d] & Hin & Hp)%problemsOf_elem.
    rewrite ownEntries_perm in Hin.
    rewrite (problemOf_key env (k, d) p Hp). exists d. split; [done |].
    rewrite <- (Hiff k d Hin). congruence.
  - intros Hnd.
    apply (sublist_NoDup _ (map fst (ownEntries defs)));
      [by rewrite ownEntries_perm | apply problemsOf_sublist].
  - intros Hni. rewrite (ownEntries_named defs Hni).
    split; [done | apply problemsOf_sublist].
Qed.

Lemma C2_aggregated_problems_witness :
  DeclarationOrder aggregationSchema
    [badNumber "PORT" "notanumber"; requiredMissing "DATABASE_URL"].
Proof.
  apply (proj1 (proj2 (proj2 (C2_aggregated_problems aggregationSchema
                                aggregationEnv
                                (names_own aggregationSchema aggregationEnv
                                   ltac:(apply (bool_decide_unpack _);
                                         vm_compute; exact I)))))
           {| problems := [badNumber "PORT" "notanumber";
                           requiredMissing "DATABASE_URL"] |}).
  - vm_compute. reflexivity.
  - repeat constructor.
Defined.

(** C2 as stated fails: with a name that is an array index, the problems
    are not in the order of declaration; with a boolean field named like a
    function of [Object.prototype] and not set, the call ends in a TypeError
    and the problem found before it is lost. *)
Lemma C2_declaration_order_counterexample :
  (exists e, createEnv indexedSchema indexedEnv = Throw e
             /\ map fst indexedSchema = ["B"; "1"]
             /\ map key (problems e) = ["1"; "B"]
             /\ ~ DeclarationOrder indexedSchema (problems e))
  /\ createEnv valueOfSchema (env_of [("PORT", "x")]) = ThrowTypeError.
Proof.
  split; [| by vm_compute].
  eexists. split; [by vm_compute |]. split; [done |]. split; [done |].
  unfold DeclarationOrder. simpl. intros H.
  apply sublist_cons_r in H as [H | (l & [=] & _)].
  apply sublist_cons_l in H as (k1 & k2 & Hk & H).
  destruct k1 as [| x [| y k1]]; simplify_eq/=.
  by apply sublist_nil_r in H.
Qed.

(** ** Immutability of the returned environment *)

Lemma createEnv_return_frozen defs env r :
  createEnv defs env = Return r -> Frozen r.
Proof.
  rewrite createEnv_unfold. destruct (existsb _ _); [done |].
  destruct (problemsOf _ _); [| done].
  intros [= <-]. apply freeze_frozen.
Qed.

Lemma frozen_set_refused o k v : Frozen o -> fst (JsObject.set o k v) = false.
Proof.
  intros [Hext Hp]. unfold JsObject.set.
  destruct (JsObject.properties o !! k) as [p |] eqn:Hk.
  - by destruct (Hp k p Hk) as [-> _].
  - by rewrite Hext.
Qed.

Lemma frozen_delete_refused o k :
  Frozen o -> k ∈ JsObject.ownNames o -> fst (JsObject.delete o k) = false.
Proof.
  intros [Hext Hp] Hin. unfold JsObject.ownNames in Hin.
  apply elem_of_dom in Hin as [p Hk]. unfold JsObject.delete. rewrite Hk.
  by destruct (Hp k p Hk) as [_ ->].
Qed.

(** C8: the environment that [createEnv] returns is frozen.  Assigning to a
    field, old or new, is refused; deleting a field is refused; no attempt,
    refused or not, changes the object, and every field reads as it did at
    construction after any sequence of attempts. *)
Theorem C8_result_immutable defs env r :
  createEnv defs env = Return r ->
  (forall k v, JsObject.set r k v = (false, r))
  /\ (forall k, k ∈ JsObject.ownNames r -> JsObject.delete r k = (false, r))
  /\ (forall m, snd (JsObject.attempt r m) = r)
  /\ (forall ms, JsObject.attempts r ms = r)
  /\ (forall ms k, JsObject.get (JsObject.attempts r ms) k = JsObject.get r k).
Proof.
  intros Hf%createEnv_return_frozen. repeat split.
  - intros k v. apply injective_projections; simpl.
    + by apply frozen_set_refused.
    + apply (frozen_attempt r (JsObject.Assign k v) Hf).
  - intros k Hk. apply injective_projections; simpl.
    + by apply frozen_delete_refused.
    + apply (frozen_attempt r (JsObject.Delete k) Hf).
  - intros m. by apply frozen_attempt.
  - intros ms. by apply frozen_attempts.
  - intros ms k. by rewrite frozen_attempts.
Qed.

Lemma C8_result_immutable_witness :
  JsObject.get
    (JsObject.attempts (returned (createEnv portSchema (env_of [])))
       [JsObject.Assign "PORT" (JsStr "80"); JsObject.Delete "PORT";
        JsObject.Assign "HOST" (JsStr "localhost")])
    "PORT"
  = JsObject.get (returned (createEnv portSchema (env_of []))) "PORT".
Proof.
  apply (C8_result_immutable portSchema (env_of [])).
  vm_compute. reflexivity.
Defined.

(** * Further properties of the code *)

(** ** Where the coercion markers come from *)

Lemma coerce_markers_inv raw def :
  (forall r, coerceValue raw def = __badNumber r ->
     raw = Some r
     /\ (exists rq df nl, def = NPrimitive TNumber rq df nl)
     /\ JsNumber.isNaN (JsNumber.Number r) = true)
  /\ (forall r, coerceValue raw def = __badBoolean r ->
        raw = Some r
        /\ (exists rq df nl, def = NPrimitive TBoolean rq df nl)
        /\ ~ matches truthyWords r /\ ~ matches falsyWords r).
Proof.
  destruct def as [vs rq | t rq df nl].
  { destruct raw; split; intros r [=]. }
  destruct raw as [raw |].
  2: { simpl. destruct (negb _); split; intros r [=]. }
  destruct t.
  - simpl. destruct (_ && _); split; intros r [=].
  - simpl. destruct (JsNumber.isNaN _) eqn:E; split; intros r [=]. subst r.
    split; [done |]. split; [by eexists _, _, _ | done].
  - rewrite coerce_boolean.
    destruct (JsString.includes truthyWords _) eqn:Et;
      [split; intros r [=] |].
    destruct (JsString.includes falsyWords _) eqn:Ef;
      [split; intros r [=] |].
    split; intros r [=]. subst r.
    split; [done |]. split; [by eexists _, _, _ |].
    split; intros H.
    + apply (includes_lowered _ _ truthyWords_lower) in H. congruence.
    + apply (includes_lowered _ _ falsyWords_lower) in H. congruence.
Qed.

(** X8: [coerceValue] returns a marker only for a present raw value of a
    number-typed or boolean-typed primitive field; the marker carries that
    raw value, which is then not a number, respectively none of the eight
    boolean words. *)
Theorem coerceValue_markers raw def :
  match coerceValue raw def with
  | Value _ => True
  | __badNumber r =>
      raw = Some r
      /\ (exists rq df nl, def = NPrimitive TNumber rq df nl)
      /\ JsNumber.isNaN (JsNumber.Number r) = true
  | __badBoolean r =>
      raw = Some r
      /\ (exists rq df nl, def = NPrimitive TBoolean rq df nl)
      /\ ~ matches truthyWords r /\ ~ matches falsyWords r
  end.
Proof.
  destruct (coerce_markers_inv raw def) as [Hn Hb].
  destruct (coerceValue raw def) as [v | r | r]; [done | by apply Hn | by apply Hb].
Qed.

(** ** What a problem carries *)

Lemma rejected_carries k d raw p :
  resolveField k d raw = Rejected p -> key p = k /\ value p = RawStr <$> raw.
Proof.
  unfold resolveField. destruct (normalizeDef d) as [vs rq | t rq df nl].
  - destruct raw as [raw |]; [| by intros [= <-]].
    destruct (negb _); [by intros [= <-] | done].
  - destruct (coerce_markers_inv raw (NPrimitive t rq df nl)) as [Hn Hb].
    destruct (coerceValue raw (NPrimitive t rq df nl)) as [v | r | r].
    + destruct (negb _ && rq) eqn:E; [| done]. intros [= <-]. simpl.
      split; [done |]. apply andb_true_iff in E as [E _].
      apply negb_true_iff in E. apply orb_false_iff in E as [E _].
      apply orb_false_iff in E as [E _]. apply bool_decide_eq_false in E.
      destruct raw; [| done]. by destruct E.
    + intros [= <-]. simpl. by destruct (Hn r eq_refl) as [-> _].
    + intros [= <-]. simpl. by destruct (Hb r eq_refl) as [-> _].
Qed.

Lemma turn_carries k d rv p :
  turn k d rv = Finished (Rejected p) -> key p = k /\ value p = rv.
Proof.
  unfold turn. destruct rv as [[raw | m] |].
  - intros [= H]. by apply rejected_carries in H.
  - unfold resolveMember.
    destruct (normalizeDef d) as [vs rq | [] rq df nl]; try done;
      by intros [= <-].
  - intros [= H]. by apply rejected_carries in H.
Qed.

(** X1: every problem of a thrown error names a declared field and carries
    exactly what the lookup [process.env[key]] yields for that field: the raw
    string when the variable is set; when it is not set, the member of
    [Object.prototype] of that name if there is one, and no value
    otherwise. *)
Theorem problems_carry_raw defs env e p :
  createEnv defs env = Throw e ->
  p ∈ problems e ->
  key p ∈ map fst defs /\ value p = processEnv env (key p).
Proof.
  intros [He _]%createEnv_throw Hp. rewrite He in Hp.
  apply problemsOf_elem in Hp as ([k d] & Hin & Hp).
  rewrite ownEntries_perm in Hin. unfold problemOf, turnOf in Hp.
  simpl in Hp.
  destruct (turn k d (processEnv env k)) as [[q | v] |] eqn:E; try done.
  injection Hp as ->. destruct (turn_carries k d _ p E) as [-> ->].
  split; [| done]. apply list_elem_of_fmap. by exists (k, d).
Qed.

Lemma problems_carry_raw_witness :
  value (badNumber "PORT" "notanumber") = processEnv aggregationEnv "PORT".
Proof.
  apply (problems_carry_raw aggregationSchema aggregationEnv
           {| problems := [badNumber "PORT" "notanumber";
                           requiredMissing "DATABASE_URL"] |}
           (badNumber "PORT" "notanumber")).
  - vm_compute. reflexivity.
  - simpl. left.
Defined.

(** ** A variable that is not set *)

Lemma resolveField_absent k d :
  resolveField k d None =
  match d with
  | ShortEnum values =>
      Rejected {| key := k;
                  message := "is missing (enum: allowed "
                             +:+ JsString.join ", " (map quoted values) +:+ ")";
                  value := None |}
  | ShortPrimitive _ => Rejected (requiredMissing k)
  | Long ld =>
      if bool_decide (ld_required ld = Some true)
         && negb (defined (ld_default ld))
         && negb (bool_decide (ld_nullable ld = Some true))
      then Rejected (requiredMissing k)
      else Resolved (ld_default ld)
  end.
Proof.
  destruct d as [t | values | ld].
  - by erewrite resolveField_primitive by reflexivity.
  - unfold resolveField. simpl. unfold String_. by rewrite !map_id.
  - erewrite resolveField_primitive by reflexivity.
    rewrite coerceValue_absent.
    by destruct ld as [t [[] |] df [[] |] ds]; simpl; destruct df.
Qed.

(** X3: what the turn of the loop does for each kind of declaration when the
    variable is not set.  When no member of [Object.prototype] has the name:
    an enum field is rejected with the message that lists the allowed
    values; a shorthand primitive field is rejected as required but missing;
    a long-form field resolves to its default as declared ([undefined] when
    it has none), unless it is required, has no default and is not nullable,
    in which case it is rejected as required but missing.  When the name is
    that of a member of [Object.prototype], the lookup yields that member:
    an enum field is rejected with "must be one of" and the member; a string
    field resolves to the member; a number field is rejected as not a valid
    number, with the member; a boolean field raises a TypeError. *)
Theorem absent_variable env k d :
  env !! k = None ->
  turnOf env (k, d) =
  if bool_decide (k ∈ prototypeNames) then
    let byType (t : PrimitiveType) :=
      match t with
      | TString => Finished (Resolved (JsMember k))
      | TNumber =>
          Finished (Rejected {| key := k; message := "is not a valid number";
                                value := Some (RawMember k) |})
      | TBoolean => Raised
      end in
    match d with
    | ShortEnum values =>
        Finished
          (Rejected {| key := k;
                       message := "must be one of: "
                                  +:+ JsString.join ", " values;
                       value := Some (RawMember k) |})
    | ShortPrimitive t => byType t
    | Long ld => byType (ld_type ld)
    end
  else
    Finished
      match d with
      | ShortEnum values =>
          Rejected {| key := k;
                      message := "is missing (enum: allowed "
                                 +:+ JsString.join ", " (map quoted values)
                                 +:+ ")";
                      value := None |}
      | ShortPrimitive _ => Rejected (requiredMissing k)
      | Long ld =>
          if bool_decide (ld_required ld = Some true)
             && negb (defined (ld_default ld))
             && negb (bool_decide (ld_nullable ld = Some true))
          then Rejected (requiredMissing k)
          else Resolved (ld_default ld)
      end.
Proof.
  intros Hk. unfold turnOf, processEnv. simpl. rewrite Hk.
  destruct (bool_decide (k ∈ prototypeNames)); simpl.
  - unfold resolveMember. destruct d as [t | values | ld]; simpl.
    + by destruct t.
    + unfold String_. by rewrite map_id.
    + by destruct (ld_type ld).
  - by rewrite resolveField_absent.
Qed.

Lemma absent_variable_witness :
  turnOf (env_of []) ("valueOf", ShortPrimitive TBoolean) = Raised.
Proof.
  apply (absent_variable (env_of []) "valueOf" (ShortPrimitive TBoolean)).
  reflexivity.
Defined.

(** ** The values of the returned environment *)

Lemma resolved_inv k d raw v :
  resolveField k d raw = Resolved v ->
  match normalizeDef d, raw with
  | NEnum values _, Some r => r ∈ values /\ v = JsStr r
  | NEnum _ _, None => False
  | NPrimitive TString _ _ nl, Some r =>
      v = if truthy nl && bool_decide (r = "null") then null else JsStr r
  | NPrimitive TNumber _ _ _, Some r =>
      JsNumber.isNaN (JsNumber.Number r) = false
      /\ v = JsNum (JsNumber.Number r)
  | NPrimitive TBoolean _ _ _, Some r =>
      (matches truthyWords r /\ v = JsBool true)
      \/ (matches falsyWords r /\ v = JsBool false)
  | NPrimitive _ rq df nl, None =>
      v = df /\ (rq = true -> defined df = true \/ truthy nl = true)
  end.
Proof.
  unfold resolveField. destruct (normalizeDef d) as [vs rq | t rq df nl].
  - destruct raw as [r |]; [| done].
    destruct (JsString.includes vs r) eqn:E; simpl; [| done].
    intros [= <-]. by apply includes_spec in E.
  - destruct raw as [r |].
    + destruct t.
      * simpl. destruct (truthy nl); simpl.
        -- destruct (String.eqb_spec r "null") as [-> | Hne].
           ++ by intros [= <-].
           ++ rewrite bool_decide_eq_false_2 by done. by intros [= <-].
        -- by intros [= <-].
      * simpl. destruct (JsNumber.isNaN _); [done |]. by intros [= <-].
      * rewrite coerce_boolean.
        destruct (JsString.includes truthyWords _) eqn:Et.
        { intros [= <-]. left. split; [| done].
          by apply (includes_lowered _ _ truthyWords_lower). }
        destruct (JsString.includes falsyWords _) eqn:Ef; [| done].
        intros [= <-]. right. split; [| done].
        by apply (includes_lowered _ _ falsyWords_lower).
    + rewrite coerceValue_absent. simpl.
      destruct (defined df) eqn:Ed, (truthy nl) eqn:En, rq; simpl;
        try done; intros [= <-]; destruct t; split; auto.
Qed.

Lemma turn_resolved_inv k d rv v :
  turn k d rv = Finished (Resolved v) ->
  match normalizeDef d, rv with
  | NEnum values _, Some (RawStr raw) => raw ∈ values /\ v = JsStr raw
  | NEnum _ _, _ => False
  | NPrimitive TString _ _ nl, Some (RawStr raw) =>
      v = if truthy nl && bool_decide (raw = "null") then null else JsStr raw
  | NPrimitive TString _ _ _, Some (RawMember m) => v = JsMember m
  | NPrimitive TNumber _ _ _, Some (RawStr raw) =>
      JsNumber.isNaN (JsNumber.Number raw) = false
      /\ v = JsNum (JsNumber.Number raw)
  | NPrimitive TNumber _ _ _, Some (RawMember _) => False
  | NPrimitive TBoolean _ _ _, Some (RawStr raw) =>
      (matches truthyWords raw /\ v = JsBool true)
      \/ (matches falsyWords raw /\ v = JsBool false)
  | NPrimitive TBoolean _ _ _, Some (RawMember _) => False
  | NPrimitive _ rq df nl, None =>
      v = df /\ (rq = true -> defined df = true \/ truthy nl = true)
  end.
Proof.
  unfold turn. destruct rv as [[raw | m] |].
  - intros [= H]. apply resolved_inv in H.
    by destruct (normalizeDef d) as [vs rq | [] rq df nl].
  - unfold resolveMember.
    destruct (normalizeDef d) as [vs rq | [] rq df nl]; try done.
    by intros [= <-].
  - intros [= H]. apply resolved_inv in H.
    by destruct (normalizeDef d) as [vs rq | [] rq df nl].
Qed.

Lemma valueOf_not_proto env e kv :
  valueOf env e = Some kv -> fst kv <> "__proto__".
Proof.
  unfold valueOf. destruct (turnOf env e) as [[p | v] |]; [done | | done].
  destruct (String.eqb_spec (fst e) "__proto__"); [done |].
  by intros [= <-].
Qed.

(** The returned object, property by property. *)
Lemma createEnv_return_properties defs env r :
  NoDup (map fst defs) ->
  createEnv defs env = Return r ->
  JsObject.properties r
  = frozenProperty <$> (list_to_map (omap (valueOf env) defs)
                        : gmap string JsValue)
  /\ JsObject.extensible r = false.
Proof.
  intros Hnd. rewrite createEnv_unfold. destruct (existsb _ _); [done |].
  destruct (problemsOf env (ownEntries defs)); [| done].
  intros [= <-]. split; [| done]. apply map_eq. intros k.
  unfold JsObject.freeze. simpl. rewrite !lookup_fmap.
  rewrite (assignAll_lookup env _ _ k empty_fresh)
    by (by rewrite ownEntries_perm).
  assert ((list_to_map (omap (valueOf env) (ownEntries defs))
           : gmap string JsValue)
          = list_to_map (omap (valueOf env) defs)) as ->.
  { apply list_to_map_proper.
    - eapply sublist_NoDup; [| apply valueOf_names].
      by rewrite ownEntries_perm.
    - by rewrite ownEntries_perm. }
  simpl. by destruct (list_to_map _ !! k).
Qed.

Lemma createEnv_return_turn defs env r k d :
  createEnv defs env = Return r ->
  (k, d) ∈ defs ->
  exists v, turnOf env (k, d) = Finished (Resolved v).
Proof.
  rewrite createEnv_unfold. intros Hr Hin.
  destruct (existsb (raises env) (ownEntries defs)) eqn:Er; [done |].
  destruct (problemsOf env (ownEntries defs)) eqn:E; [| done].
  apply problemsOf_nil in E. rewrite ownEntries_perm in E.
  rewrite Forall_forall in E. specialize (E (k, d) Hin).
  assert (raises env (k, d) = false) as Hraise.
  { apply not_true_is_false. intros H.
    assert (existsb (raises env) (ownEntries defs) = true); [| congruence].
    apply existsb_exists. exists (k, d). split; [| done].
    apply list_elem_of_In. by rewrite ownEntries_perm. }
  unfold problemOf in E. unfold raises in Hraise.
  destruct (turnOf env (k, d)) as [[p | v] |]; try done. by exists v.
Qed.

(** X6: in a returned environment every declared field other than
    [__proto__] holds the value that its declaration and the lookup of its
    name determine.  An enum field holds its raw string, which is one of the
    allowed values; a string field holds its raw string unchanged, or [null]
    for a nullable field whose raw string is "null", or, when the variable is
    not set and a member of [Object.prototype] has the name, that member; a
    number field holds the numeric value of its raw string, which is not
    not-a-number; a boolean field holds [true] or [false] according to the
    word its raw string matches; a primitive field whose lookup is
    [undefined] holds its default as declared.  A field named [__proto__]
    is not among the own properties. *)
Theorem returned_values defs env r k d :
  NoDup (map fst defs) ->
  createEnv defs env = Return r ->
  (k, d) ∈ defs ->
  (k = "__proto__" -> k ∉ JsObject.ownNames r)
  /\ (k <> "__proto__" ->
      match normalizeDef d, processEnv env k with
      | NEnum values _, Some (RawStr raw) =>
          raw ∈ values /\ JsObject.get r k = JsStr raw
      | NEnum _ _, _ => False
      | NPrimitive TString _ _ nl, Some (RawStr raw) =>
          JsObject.get r k
          = if truthy nl && bool_decide (raw = "null") then null
            else JsStr raw
      | NPrimitive TString _ _ _, Some (RawMember m) =>
          JsObject.get r k = JsMember m
      | NPrimitive TNumber _ _ _, Some (RawStr raw) =>
          JsNumber.isNaN (JsNumber.Number raw) = false
          /\ JsObject.get r k = JsNum (JsNumber.Number raw)
      | NPrimitive TNumber _ _ _, Some (RawMember _) => False
      | NPrimitive TBoolean _ _ _, Some (RawStr raw) =>
          (matches truthyWords raw /\ JsObject.get r k = JsBool true)
          \/ (matches falsyWords raw /\ JsObject.get r k = JsBool false)
      | NPrimitive TBoolean _ _ _, Some (RawMember _) => False
      | NPrimitive _ rq df nl, None =>
          JsObject.get r k = df
          /\ (rq = true -> defined df = true \/ truthy nl = true)
      end).
Proof.
  intros Hnd Hr Hin.
  destruct (createEnv_return_properties defs env r Hnd Hr) as [Hprops _].
  assert (NoDup (map fst (omap (valueOf env) defs))) as Hnd'.
  { eapply sublist_NoDup; [exact Hnd | apply valueOf_names]. }
  split.
  - intros ->. unfold JsObject.ownNames. rewrite Hprops, dom_fmap_L.
    intros Hdom%elem_of_dom. destruct Hdom as [v Hv].
    apply elem_of_list_to_map_2 in Hv.
    apply list_elem_of_omap in Hv as (e & _ & He).
    by apply valueOf_not_proto in He.
  - intros Hk.
    destruct (createEnv_return_turn defs env r k d Hr Hin) as [v Hv].
    assert (JsObject.get r k = v) as ->.
    { unfold JsObject.get. rewrite Hprops, lookup_fmap.
      erewrite elem_of_list_to_map_1; [done | done |].
      apply list_elem_of_omap. exists (k, d). split; [done |].
      unfold valueOf. rewrite Hv. simpl.
      by apply String.eqb_neq in Hk as ->. }
    exact (turn_resolved_inv k d (processEnv env k) v Hv).
Qed.

Lemma returned_values_witness :
  JsNumber.isNaN (JsNumber.Number "4000") = false
  /\ JsObject.get (returned (createEnv portSchema (env_of [("PORT", "4000")])))
                  "PORT"
     = JsNum (JsNumber.Number "4000").
Proof.
  apply (returned_values portSchema (env_of [("PORT", "4000")])
           (returned (createEnv portSchema (env_of [("PORT", "4000")])))
           "PORT" (long TNumber None (JsNum (JsNumber.of_Z 3000)) None)).
  - repeat constructor. by intros []%elem_of_nil.
  - vm_compute. reflexivity.
  - left.
  - discriminate.
Defined.

(** ** Sources that agree on the schema's names *)

Lemma loop_agree env env' es st :
  (forall e, e ∈ es -> env !! fst e = env' !! fst e) ->
  fold_left (step env) es st = fold_left (step env') es st.
Proof.
  revert st. induction es as [| e es IH]; intros st H; simpl; [done |].
  assert (step env st e = step env' st e) as ->.
  { destruct st as [[ps r] |], e as [k d]; [| done]. unfold step, processEnv.
    assert (env !! k = env' !! k) as -> by (apply (H (k, d)); left).
    done. }
  apply IH. intros e' He'. apply H. by right.
Qed.

(** X4: [createEnv] reads the source only at the names of the schema: two
    sources that agree on these names give the same outcome, whatever else
    they hold. *)
Theorem createEnv_reads_declared_names defs env env' :
  AgreeOn defs env env' -> createEnv defs env = createEnv defs env'.
Proof.
  intros H. unfold createEnv.
  rewrite (loop_agree env env' (ownEntries defs)); [done |].
  intros e He. apply H. apply list_elem_of_fmap. exists e.
  split; [done |]. by rewrite <- (ownEntries_perm defs).
Qed.

Lemma createEnv_reads_declared_names_witness :
  createEnv portSchema (env_of [("HOME", "/root")])
  = createEnv portSchema (env_of []).
Proof.
  apply createEnv_reads_declared_names.
  intros k [-> | []%elem_of_nil]%elem_of_cons. reflexivity.
Defined.

(** ** The order of declaration *)

(** X5: the order in which the fields are declared affects only the order of
    the problems.  Two schemas with the same fields in a different order
    return environments with the same properties (names, values and
    attributes; the order of the properties of an object is not part of this
    model), or both throw, with the same problems up to their order. *)
Theorem declaration_order_irrelevant defs defs' env :
  NoDup (map fst defs) ->
  defs ≡ₚ defs' ->
  (forall r, createEnv defs env = Return r <-> createEnv defs' env = Return r)
  /\ (forall e, createEnv defs env = Throw e ->
        exists e', createEnv defs' env = Throw e'
                   /\ problems e ≡ₚ problems e').
Proof.
  intros Hnd Hperm.
  assert (NoDup (map fst defs')) as Hnd' by (by rewrite <- Hperm).
  assert (problemsOf env (ownEntries defs)
          ≡ₚ problemsOf env (ownEntries defs')) as Hps.
  { unfold problemsOf. by rewrite !ownEntries_perm, Hperm. }
  assert (existsb (raises env) (ownEntries defs)
          = existsb (raises env) (ownEntries defs')) as Hraise.
  { apply raises_perm. by rewrite !ownEntries_perm. }
  assert (forall a b, NoDup (map fst a) -> NoDup (map fst b) -> a ≡ₚ b ->
            problemsOf env (ownEntries a) ≡ₚ problemsOf env (ownEntries b) ->
            existsb (raises env) (ownEntries a)
            = existsb (raises env) (ownEntries b) ->
            forall r, createEnv a env = Return r -> createEnv b env = Return r)
    as Hdir.
  { intros a b Ha Hb Hab Hpab Hrab r Hr.
    destruct (createEnv_return_properties a env r Ha Hr) as [Hprops Hext].
    assert (existsb (raises env) (ownEntries b) = false
            /\ problemsOf env (ownEntries b) = []) as [Hfalse Hnil].
    { revert Hr. rewrite createEnv_unfold, Hrab.
      destruct (existsb _ (ownEntries b)); [done |].
      destruct (problemsOf env (ownEntries a)); [| done]. intros _.
      split; [done |]. symmetry. by apply Permutation_nil_l. }
    pose proof (createEnv_unfold b env) as Hb'. rewrite Hfalse, Hnil in Hb'.
    destruct (createEnv_return_properties b env _ Hb Hb') as [Hprops' Hext'].
    rewrite Hb'. f_equal.
    destruct (JsObject.freeze _) as [props' ext'], r as [props ext].
    simpl in *. subst. f_equal. f_equal. apply list_to_map_proper.
    - eapply sublist_NoDup; [exact Hb | apply valueOf_names].
    - by rewrite Hab. }
  split.
  - intros r. split; apply Hdir; done.
  - intros e He. pose proof He as [Hpe Hne]%createEnv_throw.
    revert He. rewrite !createEnv_unfold, <- Hraise.
    destruct (existsb _ _); [done |]. intros _.
    destruct (problemsOf env (ownEntries defs')) as [| p ps] eqn:E.
    + rewrite Hpe in Hne. by apply Permutation_nil_r in Hps.
    + eexists. split; [done |]. simpl. by rewrite Hpe.
Qed.

Lemma declaration_order_irrelevant_witness :
  exists e',
    createEnv (reverse aggregationSchema) aggregationEnv = Throw e'
    /\ [badNumber "PORT" "notanumber"; requiredMissing "DATABASE_URL"]
       ≡ₚ problems e'.
Proof.
  apply (proj2 (declaration_order_irrelevant aggregationSchema
                  (reverse aggregationSchema) aggregationEnv
                  ltac:(apply (bool_decide_unpack _); vm_compute; exact I)
                  ltac:(apply perm_swap))
           {| problems := [badNumber "PORT" "notanumber";
                           requiredMissing "DATABASE_URL"] |}).
  vm_compute. reflexivity.
Defined.

(** ** Schemas put together *)

Lemma problemsOf_app env es1 es2 :
  problemsOf env (es1 ++ es2) = problemsOf env es1 ++ problemsOf env es2.
Proof. unfold problemsOf. apply omap_app. Qed.

Lemma createEnv_return_iff defs env :
  (exists r, createEnv defs env = Return r)
  <-> existsb (raises env) defs = false /\ problemsOf env defs = [].
Proof.
  rewrite createEnv_unfold.
  rewrite (raises_perm env _ _ (ownEntries_perm defs)).
  assert (problemsOf env (ownEntries defs) ≡ₚ problemsOf env defs) as Hp.
  { unfold problemsOf. by rewrite ownEntries_perm. }
  destruct (existsb (raises env) defs).
  { split; [by intros [r [=]] | by intros [[=] _]]. }
  destruct (problemsOf env (ownEntries defs)) as [| p ps] eqn:E.
  - split; [intros _ | by eexists]. split; [done |].
    symmetry. by apply Permutation_nil_l.
  - split; [by intros [r [=]] |]. intros [_ Hnil]. rewrite Hnil in Hp.
    by apply Permutation_nil_r in Hp.
Qed.

(** X10: a schema made of two parts returns exactly when each part returns
    on its own, and the environment it returns then holds the properties of
    both. *)
Theorem schema_append d1 d2 env :
  NoDup (map fst (d1 ++ d2)) ->
  ((exists r, createEnv (d1 ++ d2) env = Return r)
   <-> (exists r1, createEnv d1 env = Return r1)
       /\ (exists r2, createEnv d2 env = Return r2))
  /\ (forall r1 r2,
        createEnv d1 env = Return r1 ->
        createEnv d2 env = Return r2 ->
        createEnv (d1 ++ d2) env
        = Return {| JsObject.properties :=
                      JsObject.properties r1 ∪ JsObject.properties r2;
                    JsObject.extensible := false |}).
Proof.
  intros Hnd.
  assert ((exists r, createEnv (d1 ++ d2) env = Return r)
          <-> (exists r1, createEnv d1 env = Return r1)
              /\ (exists r2, createEnv d2 env = Return r2)) as Hiff.
  { rewrite !createEnv_return_iff, problemsOf_app, raises_app. split.
    - intros [[-> ->]%orb_false_iff [-> ->]%app_eq_nil]. by repeat split.
    - by intros [[-> ->] [-> ->]]. }
  split; [done |]. intros r1 r2 Hr1 Hr2.
  destruct (proj2 Hiff) as [r Hr]; [by split; eexists |].
  rewrite Hr. f_equal.
  destruct (createEnv_return_properties (d1 ++ d2) env r Hnd Hr) as [Hp Hext].
  rewrite fmap_app in Hnd. apply NoDup_app in Hnd as (Hnd1 & _ & Hnd2).
  destruct (createEnv_return_properties d1 env r1 Hnd1 Hr1) as [Hp1 _].
  destruct (createEnv_return_properties d2 env r2 Hnd2 Hr2) as [Hp2 _].
  destruct r as [props ext]. simpl in *. subst. f_equal.
  by rewrite Hp1, Hp2, omap_app, list_to_map_app, map_fmap_union.
Qed.

Lemma schema_append_witness :
  exists r, createEnv (portSchema ++ [("DEBUG", long TBoolean None (JsBool false) None)])
                      (env_of []) = Return r.
Proof.
  apply (proj1 (schema_append portSchema
                  [("DEBUG", long TBoolean None (JsBool false) None)]
                  (env_of [])
                  ltac:(apply (bool_decide_unpack _); vm_compute; exact I))).
  split; eexists; vm_compute; reflexivity.
Defined.

(** ** Decimal numerals *)

Lemma shr_1_nonneg mrs : 0 <= shr_m mrs -> 0 <= shr_m (shr_1 mrs).
Proof.
  destruct mrs as [[| [p | p |] | p] r s]; simpl; intros H; try lia.
Qed.

Lemma iter_shr_1_nonneg p mrs :
  0 <= shr_m mrs -> 0 <= shr_m (SpecFloat.iter_pos shr_1 p mrs).
Proof.
  revert mrs. induction p as [p IH | p IH |]; intros mrs H; simpl.
  - by apply IH, IH, shr_1_nonneg.
  - by apply IH, IH.
  - by apply shr_1_nonneg.
Qed.

Lemma shr_fexp_nonneg prec emax m e l :
  0 <= m -> 0 <= shr_m (fst (shr_fexp prec emax m e l)).
Proof.
  intros H. unfold shr_fexp, shr.
  assert (0 <= shr_m (shr_record_of_loc m l)) as H'.
  { by destruct l as [| []]. }
  destruct (_ - e); simpl; [done | | done]. by apply iter_shr_1_nonneg.
Qed.

Lemma round_nearest_even_nonneg m l : 0 <= m -> 0 <= round_nearest_even m l.
Proof.
  intros H. destruct l as [| []]; simpl; try lia. destruct (Z.even m); lia.
Qed.

(** Rounding a non-negative mantissa never gives not-a-number. *)
Lemma binary_round_aux_number prec emax s m e l :
  0 <= m -> JsNumber.isNaN (binary_round_aux prec emax s m e l) = false.
Proof.
  intros H. unfold binary_round_aux.
  pose proof (shr_fexp_nonneg prec emax m e l H) as H1.
  destruct (shr_fexp prec emax m e l) as [mrs' e']. simpl in H1.
  pose proof (shr_fexp_nonneg prec emax
                (round_nearest_even (shr_m mrs') (loc_of_shr_record mrs'))
                e' loc_Exact
                (round_nearest_even_nonneg _ _ H1)) as H2.
  destruct (shr_fexp prec emax _ e' loc_Exact) as [mrs'' e'']. simpl in H2.
  destruct (shr_m mrs''); [done | | lia]. by destruct (_ <=? _).
Qed.

Lemma of_Z_number n : JsNumber.isNaN (JsNumber.of_Z (Z.of_N n)) = false.
Proof.
  unfold JsNumber.of_Z, JsNumber.of_decimal.
  destruct (Z.abs (Z.of_N n)); [done | | done].
  unfold binary_round. destruct (shl_align _ _ _).
  by apply binary_round_aux_number.
Qed.

Lemma digit_char c :
  ((48 <=? N_of_ascii c) && (N_of_ascii c <=? 57))%N = true ->
  JsNumber.is_StrWhiteSpaceChar c = false
  /\ JsNumber.digit 10 c = Some (Z.of_N (N_of_ascii c - 48))
  /\ JsNumber.radixPrefix c = None
  /\ (JsString.code c =? 45) = false
  /\ (JsString.code c =? 43) = false
  /\ Ascii.eqb c "I" = false.
Proof. destruct c as [[] [] [] [] [] [] [] []]; by vm_compute. Qed.

Lemma decimalValue_digits s a n :
  decimalValue a s = Some n ->
  JsNumber.digits 10 (Z.of_N a) (list_ascii_of_string s)
  = (Z.of_N n, Z.of_nat (String.length s), [])
  /\ Forall (fun c => ((48 <=? N_of_ascii c) && (N_of_ascii c <=? 57))%N = true)
            (list_ascii_of_string s).
Proof.
  revert a. induction s as [| c s IH]; intros a; simpl.
  - by intros [= ->].
  - destruct ((48 <=? N_of_ascii c) && (N_of_ascii c <=? 57))%N eqn:E; [| done].
    intros H. destruct (digit_char c E) as (_ & -> & _).
    destruct (IH _ H) as [Hd Hall]. split; [| by constructor].
    replace (Z.of_N a * 10 + Z.of_N (N_of_ascii c - 48))
      with (Z.of_N (a * 10 + (N_of_ascii c - 48))) by lia.
    rewrite Hd. f_equal. f_equal. lia.
Qed.

Lemma trimStart_digits l :
  Forall (fun c => ((48 <=? N_of_ascii c) && (N_of_ascii c <=? 57))%N = true) l ->
  JsNumber.trimStart l = l.
Proof.
  destruct 1 as [| c l Hc _]; simpl; [done |].
  by destruct (digit_char c Hc) as (-> & _).
Qed.

Lemma Number_decimalNumeral raw n :
  decimalNumeral raw n -> JsNumber.Number raw = JsNumber.of_Z (Z.of_N n).
Proof.
  intros [Hne Hv]. destruct (decimalValue_digits raw 0 n Hv) as [Hd Hall].
  change (Z.of_N 0) with 0 in Hd.
  assert ((0 <? Z.of_nat (String.length raw) + 0) = true) as Hlen.
  { apply Z.ltb_lt. destruct raw; [done | simpl; lia]. }
  unfold JsNumber.Number, JsNumber.trim.
  rewrite (trimStart_digits _ Hall).
  rewrite (trimStart_digits (rev _)) by (by apply Forall_rev).
  rewrite rev_involutive.
  destruct (list_ascii_of_string raw) as [| c l] eqn:El.
  { by destruct raw. }
  pose proof Hall as [Hc Hl]%Forall_cons.
  destruct (digit_char c Hc) as (_ & _ & _ & Hm & Hp & HI).
  assert (JsNumber.unsignedDecimal false (c :: l)
          = JsNumber.of_Z (Z.of_N n)) as Hu.
  { unfold JsNumber.unsignedDecimal.
    assert (String.eqb (string_of_list_ascii (c :: l)) "Infinity" = false)
      as ->.
    { simpl. by rewrite HI. }
    rewrite Hd, Hlen. cbn [JsNumber.exponentPart].
    rewrite Z.sub_0_r. unfold JsNumber.of_Z.
    assert ((Z.of_N n <? 0) = false) as -> by (apply Z.ltb_ge; lia).
    f_equal. lia. }
  unfold JsNumber.numericLiteral. rewrite Hm, Hp.
  destruct l as [| p r]; [done |].
  apply Forall_cons in Hl as [Hpd _].
  destruct (digit_char p Hpd) as (_ & _ & -> & _).
  by destruct (JsString.code c =? 48).
Qed.

Lemma digits2_pos_lower m : 2 ^ (Zpos (digits2_pos m) - 1) <= Zpos m.
Proof.
  induction m as [m IH | m IH |]; simpl digits2_pos; [| | done].
  - rewrite Pos2Z.inj_succ.
    replace (Z.succ (Zpos (digits2_pos m)) - 1)
      with (Z.succ (Zpos (digits2_pos m) - 1)) by lia.
    rewrite Z.pow_succ_r by lia. lia.
  - rewrite Pos2Z.inj_succ.
    replace (Z.succ (Zpos (digits2_pos m)) - 1)
      with (Z.succ (Zpos (digits2_pos m) - 1)) by lia.
    rewrite Z.pow_succ_r by lia. lia.
Qed.

Lemma iter_xO m k :
  Zpos (Pos.iter xO m k) = Zpos m * 2 ^ Zpos k
  /\ digits2_pos (Pos.iter xO m k) = (digits2_pos m + k)%positive.
Proof.
  induction k as [| k [IHv IHd]] using Pos.peano_ind.
  - simpl. split; lia.
  - rewrite Pos.iter_succ. simpl digits2_pos. rewrite IHd. split; [| lia].
    rewrite Pos2Z.inj_xO, IHv, Pos2Z.inj_succ, Z.pow_succ_r by lia. lia.
Qed.

(** Integers below 2^53 are numbers: rounding leaves them as they are. *)
Lemma of_Z_exact n :
  (n < 2 ^ 53)%N -> integerValue (JsNumber.of_Z (Z.of_N n)) = Some (Z.of_N n).
Proof.
  intros Hn. unfold JsNumber.of_Z, JsNumber.of_decimal.
  assert ((Z.of_N n <? 0) = false) as -> by (apply Z.ltb_ge; lia).
  destruct n as [| m]; [done |].
  change (Z.abs (Z.of_N (N.pos m))) with (Z.pos m). cbv beta iota.
  change (Z.to_pos (10 ^ 0)) with 1%positive. rewrite Pos.mul_1_r.
  change (Z.of_N (N.pos m)) with (Z.pos m).
  pose proof (digits2_pos_lower m) as Hlow.
  assert (Zpos (digits2_pos m) <= 53) as Hd.
  { destruct (Z_le_gt_dec (Zpos (digits2_pos m)) 53) as [? | Hgt]; [done |].
    assert (2 ^ 53 <= 2 ^ (Zpos (digits2_pos m) - 1))
      by (apply Z.pow_le_mono_r; lia).
    assert (Zpos m < 2 ^ 53) by lia. lia. }
  unfold binary_round, shl_align, fexp, emin, JsNumber.prec, JsNumber.emax.
  rewrite Z.add_0_r, Z.sub_0_r.
  rewrite Z.max_l by lia.
  destruct (Zpos (digits2_pos m) - 53) as [| q | q] eqn:Eq; [| lia |].
  - unfold binary_round_aux, shr_fexp, fexp, emin. simpl Zdigits2.
    rewrite Z.add_0_r, Z.sub_0_r, Z.max_l, Eq by lia. simpl.
    rewrite Z.add_0_r, Z.max_l, Eq by lia. simpl.
    f_equal. lia.
  - destruct (iter_xO m q) as [Hv Hdig].
    unfold binary_round_aux, shr_fexp, fexp, emin. simpl Zdigits2. rewrite Hdig.
    assert ((Zpos (digits2_pos m + q) + Z.neg q - 53) `max` (3 - 1024 - 53)
            - Z.neg q = 0) as Hshift by lia.
    rewrite Hshift. cbn [shr shr_record_of_loc shr_m loc_of_shr_record
                         round_nearest_even Zdigits2].
    rewrite Hdig, Hshift. cbn [shr shr_m].
    assert ((Z.neg q <=? 1024 - 53) = true) as -> by (apply Z.leb_le; lia).
    unfold integerValue.
    assert ((0 <=? Z.neg q) = false) as -> by (apply Z.leb_gt; lia).
    change (- Z.neg q) with (Zpos q).
    change (Zpos (PosDef.Pos.iter xO m q)) with (Zpos (Pos.iter xO m q)).
    rewrite Hv, Z.mod_mul, Z.div_mul by lia. done.
Qed.

(** X7: a number-typed field whose raw value is a non-empty string of
    decimal digits always resolves, and to the number of the integer that
    the digits denote (leading zeros allowed); below 2^53 that number is the
    integer itself. *)
Theorem decimal_numeral_accepted k d rq df nl raw n :
  normalizeDef d = NPrimitive TNumber rq df nl ->
  decimalNumeral raw n ->
  JsNumber.Number raw = JsNumber.of_Z (Z.of_N n)
  /\ resolveField k d (Some raw) = Resolved (JsNum (JsNumber.of_Z (Z.of_N n)))
  /\ ((n < 2 ^ 53)%N ->
      integerValue (JsNumber.Number raw) = Some (Z.of_N n)).
Proof.
  intros Hn Hraw. split; [by apply Number_decimalNumeral |]. split.
  - apply (resolveField_present _ _ _ _ _ _ _ _ Hn). simpl.
    by rewrite (Number_decimalNumeral raw n Hraw), of_Z_number.
  - intros Hlt. rewrite (Number_decimalNumeral raw n Hraw).
    by apply of_Z_exact.
Qed.

Lemma decimal_numeral_accepted_witness :
  integerValue (JsNumber.Number "08080") = Some 8080.
Proof.
  apply (decimal_numeral_accepted "PORT" (ShortPrimitive TNumber)
           true undefined None "08080" 8080).
  - reflexivity.
  - split; [discriminate | reflexivity].
  - reflexivity.
Defined.

(** ** Enum fields *)

(** X2: an enum field whose variable is set resolves to the raw string
    itself exactly when the raw string is one of the allowed values, compared
    as it is; every other raw string is rejected with the message that lists
    the allowed values, and the problem carries the raw string. *)
Theorem enum_field k values raw :
  resolveField k (ShortEnum values) (Some raw) =
  if bool_decide (raw ∈ values) then Resolved (JsStr raw)
  else Rejected {| key := k;
                   message := "must be one of: " +:+ JsString.join ", " values;
                   value := Some (RawStr raw) |}.
Proof.
  unfold resolveField. simpl. unfold String_. rewrite map_id.
  destruct (JsString.includes values raw) eqn:E; simpl.
  - apply includes_spec in E. by rewrite bool_decide_eq_true_2.
  - rewrite bool_decide_eq_false_2; [done |].
    intros Hin%includes_spec. congruence.
Qed.

(** ** White space *)

Lemma list_ascii_app s t :
  list_ascii_of_string (s +:+ t)
  = list_ascii_of_string s ++ list_ascii_of_string t.
Proof.
  induction s as [| c s IH]; [done |].
  change (String c s +:+ t) with (String c (s +:+ t)). simpl. by rewrite IH.
Qed.

Lemma trimStart_app_white p l :
  Forall (fun c => JsNumber.is_StrWhiteSpaceChar c = true) p ->
  JsNumber.trimStart (p ++ l) = JsNumber.trimStart l.
Proof. induction 1 as [| c p Hc _ IH]; simpl; [done | by rewrite Hc]. Qed.

Lemma trimStart_app_end l p :
  Forall (fun c => JsNumber.is_StrWhiteSpaceChar c = true) p ->
  JsNumber.trimStart (rev (JsNumber.trimStart (l ++ p)))
  = JsNumber.trimStart (rev (JsNumber.trimStart l)).
Proof.
  intros Hp. induction l as [| c l IH]; simpl.
  - by rewrite (trimStart_white _ Hp).
  - destruct (JsNumber.is_StrWhiteSpaceChar c); [done |].
    change (c :: l ++ p) with ((c :: l) ++ p).
    rewrite rev_app_distr. apply trimStart_app_white. by apply Forall_rev.
Qed.

Lemma Number_padded pad1 raw pad2 :
  AllWhiteSpace pad1 -> AllWhiteSpace pad2 ->
  JsNumber.Number (pad1 +:+ raw +:+ pad2) = JsNumber.Number raw.
Proof.
  intros H1 H2. unfold JsNumber.Number, JsNumber.trim.
  rewrite !list_ascii_app, (trimStart_app_white _ _ H1).
  by rewrite (trimStart_app_end _ _ H2).
Qed.

(** X11: a number-typed field ignores white space around its raw value:
    padding changes neither whether the field resolves nor the number it
    resolves to; a problem carries the raw value with its padding. *)
Theorem number_ignores_padding k d rq df nl pad1 raw pad2 :
  normalizeDef d = NPrimitive TNumber rq df nl ->
  AllWhiteSpace pad1 -> AllWhiteSpace pad2 ->
  match resolveField k d (Some raw) with
  | Resolved v => resolveField k d (Some (pad1 +:+ raw +:+ pad2)) = Resolved v
  | Rejected _ =>
      resolveField k d (Some (pad1 +:+ raw +:+ pad2))
      = Rejected (badNumber k (pad1 +:+ raw +:+ pad2))
  end.
Proof.
  intros Hn H1 H2. rewrite !(resolveField_primitive _ _ _ _ _ _ _ Hn).
  simpl. rewrite (Number_padded pad1 raw pad2 H1 H2).
  by destruct (JsNumber.isNaN (JsNumber.Number raw)).
Qed.

Lemma number_ignores_padding_witness :
  resolveField "PORT" (ShortPrimitive TNumber) (Some (" " +:+ "8080" +:+ "  "))
  = Resolved (JsNum (JsNumber.of_Z 8080)).
Proof.
  apply (number_ignores_padding "PORT" (ShortPrimitive TNumber)
           true undefined None " " "8080" "  ").
  - reflexivity.
  - repeat constructor.
  - repeat constructor.
Defined.

Lemma toLowerCase_white raw :
  HasWhiteSpace raw -> HasWhiteSpace (JsString.toLowerCase raw).
Proof.
  unfold HasWhiteSpace. induction raw as [| c raw IH]; simpl.
  - by intros ?%Exists_nil.
  - intros [Hc | Hraw]%Exists_cons.
    + left. revert Hc. by destruct c as [[] [] [] [] [] [] [] []].
    + right. by apply IH.
Qed.

Lemma words_no_white w :
  w ∈ truthyWords ++ falsyWords -> ~ HasWhiteSpace w.
Proof.
  unfold truthyWords, falsyWords. simpl. intros Hw.
  repeat (apply elem_of_cons in Hw as [-> | Hw];
          [unfold HasWhiteSpace; simpl;
           rewrite ?Exists_cons, Exists_nil; vm_compute; intuition discriminate |]).
  by apply elem_of_nil in Hw.
Qed.

(** X12: a boolean-typed field does not trim: a raw value with a white-space
    code unit anywhere is rejected as not a valid boolean, even when the rest
    spells one of the eight words. *)
Theorem boolean_rejects_white_space k d rq df nl raw :
  normalizeDef d = NPrimitive TBoolean rq df nl ->
  HasWhiteSpace raw ->
  resolveField k d (Some raw) = Rejected (badBoolean k raw).
Proof.
  intros Hn Hw%toLowerCase_white.
  rewrite (resolveField_primitive _ _ _ _ _ _ _ Hn), coerce_boolean.
  destruct (JsString.includes truthyWords _) eqn:Et.
  { apply includes_spec in Et. destruct (words_no_white _ ltac:(apply elem_of_app; left; exact Et) Hw). }
  destruct (JsString.includes falsyWords _) eqn:Ef; [| done].
  apply includes_spec in Ef.
  destruct (words_no_white _ ltac:(apply elem_of_app; right; exact Ef) Hw).
Qed.

Lemma boolean_rejects_white_space_witness :
  resolveField "DEBUG" (ShortPrimitive TBoolean) (Some "true ")
  = Rejected (badBoolean "DEBUG" "true ").
Proof.
  apply (boolean_rejects_white_space "DEBUG" (ShortPrimitive TBoolean)
           true undefined None "true ").
  - reflexivity.
  - unfold HasWhiteSpace. simpl. do 4 right. left. reflexivity.
Defined.

(** ** The message *)





(** ** The tests of the repository *)

(** "applies defaults and coercion" and "validates enums". *)
Example tests_pass :
  (exists r,
     createEnv [("PORT", long TNumber None (JsNum (JsNumber.of_Z 3000)) None);
                ("DEBUG", long TBoolean None (JsBool false) None);
                ("DATABASE_URL", long TString (Some true) undefined None)]
               (env_of [("PORT", "4000"); ("DEBUG", "true");
                        ("DATABASE_URL", "postgres://x")]) = Return r
     /\ JsObject.get r "PORT" = JsNum (JsNumber.of_Z 4000)
     /\ JsObject.get r "DEBUG" = JsBool true
     /\ JsObject.get r "DATABASE_URL" = JsStr "postgres://x")
  /\ (exists r,
        createEnv [("NODE_ENV", ShortEnum ["development"; "test"; "production"])]
                  (env_of [("NODE_ENV", "production")]) = Return r
        /\ JsObject.get r "NODE_ENV" = JsStr "production").
Proof. split; eexists; repeat split; by vm_compute. Qed.
